(** * CRC documentation server: text extraction, ranking, cache and tools

    A shallow embedding of [server.py] and the properties of its
    fetch -> extract -> rank pipeline and of the cache that sits in
    front of it.

    Conventions of the embedding.
    - A Python [str] is a Rocq [string]; a character is a code point
      below 256, so the character predicates ([str.isspace]) and
      [str.lower] below are Python's on that range.
    - [DOC_SOURCES] is an association list: the order of its keys is
      observable through [list(DOC_SOURCES.keys())].
    - [doc_cache] is a finite map from source names to texts.
    - The parsed document of BeautifulSoup is a tree of tags and strings;
      the parser itself, the inputs that it rejects with an exception, and
      the network are parameters of the development.
    - The tools run in a small state-and-exception monad over the process
      globals ([doc_cache], [session]), the log and the list of HTTP
      requests issued so far.  Every tool invocation runs to completion:
      interleavings of concurrent invocations are not modelled. *)

From Stdlib Require Import ZArith NArith Ascii String List DecimalString.
From stdpp Require Import gmap strings list.

Local Open Scope string_scope.
Local Open Scope list_scope.
#[local] Set Warnings "-register-all,-clear-no-such-hyp".

(** ** Python strings *)

Module Str.

(** [str.isspace] on one character (code points below 256): the ASCII
    white space 9-13 and 28-32, NEL (133) and the no-break space (160).
    The regular expression class [\s] on [str] patterns is the same set. *)
Definition isspace (c : ascii) : bool :=
  let n := N_of_ascii c in
  (((9 <=? n) && (n <=? 13)) || ((28 <=? n) && (n <=? 32))
   || (n =? 133) || (n =? 160))%N.

(** [str.lower] on one character: A-Z, and the upper-case letters of the
    Latin-1 block (192-222 except the multiplication sign 215). *)
Definition lower_char (c : ascii) : ascii :=
  let n := N_of_ascii c in
  if (((65 <=? n) && (n <=? 90))
      || ((192 <=? n) && (n <=? 222) && negb (n =? 215)))%N
  then ascii_of_N (n + 32) else c.

Fixpoint lower (s : string) : string :=
  match s with
  | EmptyString => EmptyString
  | String c s' => String (lower_char c) (lower s')
  end.

Definition is_empty (s : string) : bool :=
  match s with EmptyString => true | String _ _ => false end.

(** [s.lstrip()], [s.rstrip()] and [s.strip()]. *)
Fixpoint lstrip (s : string) : string :=
  match s with
  | EmptyString => EmptyString
  | String c s' => if isspace c then lstrip s' else s
  end.

Fixpoint rstrip (s : string) : string :=
  match s with
  | EmptyString => EmptyString
  | String c s' =>
      let r := rstrip s' in
      if is_empty r && isspace c then EmptyString else String c r
  end.

Definition strip (s : string) : string := lstrip (rstrip s).

(** [s.split(sep)] for a one-character separator: never the empty list. *)
Fixpoint split_on (sep : ascii) (s : string) : list string :=
  match s with
  | EmptyString => [EmptyString]
  | String c s' =>
      match split_on sep s' with
      | [] => [EmptyString]
      | p :: ps =>
          if Ascii.eqb c sep then EmptyString :: p :: ps
          else String c p :: ps
      end
  end.

(** [s.split()]: the maximal runs of characters that are not white space. *)
Definition starts_word (s : string) : bool :=
  match s with
  | EmptyString => false
  | String d _ => negb (isspace d)
  end.

Definition glue (c : ascii) (ws : list string) : list string :=
  match ws with
  | [] => [String c EmptyString]
  | w :: ws' => String c w :: ws'
  end.

Fixpoint split (s : string) : list string :=
  match s with
  | EmptyString => []
  | String c s' =>
      if isspace c then split s'
      else if starts_word s' then glue c (split s')
      else String c EmptyString :: split s'
  end.

(** [s.count(sub)]: occurrences of [sub] found from left to right, the
    search resuming after the end of each occurrence.  [skip] is the number
    of characters still covered by the last occurrence.  For the empty
    [sub] Python answers [len(s) + 1]. *)
Fixpoint count_from (sub : string) (skip : nat) (s : string) : nat :=
  match s with
  | EmptyString => 0
  | String _ s' =>
      match skip with
      | S k => count_from sub k s'
      | O =>
          if String.prefix sub s
          then S (count_from sub (String.length sub - 1) s')
          else count_from sub 0 s'
      end
  end.

Definition count (s sub : string) : nat :=
  if is_empty sub then S (String.length s) else count_from sub 0 s.

(** [sep.join(l)]. *)
Definition join (sep : string) (l : list string) : string :=
  String.concat sep l.

(** [re.sub(r'\s+', ' ', s)]: every maximal run of white space becomes one
    space.  [in_run] tells that the previous character was white space. *)
Fixpoint collapse (in_run : bool) (s : string) : string :=
  match s with
  | EmptyString => EmptyString
  | String c s' =>
      if isspace c
      then (if in_run then collapse true s' else String " " (collapse true s'))
      else String c (collapse false s')
  end.

Definition re_sub_spaces (s : string) : string := collapse false s.

(** [s.replace(a, b)] for one-character [a] and [b]. *)
Fixpoint replace_char (a b : ascii) (s : string) : string :=
  match s with
  | EmptyString => EmptyString
  | String c s' =>
      String (if Ascii.eqb c a then b else c) (replace_char a b s')
  end.

(** [s.title()] on ASCII text: a letter that follows a letter is lowered,
    any other letter is raised.  It is only ever applied to keys of the
    registry. *)
Definition is_ascii_lower (c : ascii) : bool :=
  let n := N_of_ascii c in ((97 <=? n) && (n <=? 122))%N.
Definition is_ascii_upper (c : ascii) : bool :=
  let n := N_of_ascii c in ((65 <=? n) && (n <=? 90))%N.
Definition upper_ascii (c : ascii) : ascii :=
  if is_ascii_lower c then ascii_of_N (N_of_ascii c - 32) else c.
Definition lower_ascii (c : ascii) : ascii :=
  if is_ascii_upper c then ascii_of_N (N_of_ascii c + 32) else c.

Fixpoint title_from (prev_cased : bool) (s : string) : string :=
  match s with
  | EmptyString => EmptyString
  | String c s' =>
      if is_ascii_lower c || is_ascii_upper c
      then String (if prev_cased then lower_ascii c else upper_ascii c)
                  (title_from true s')
      else String c (title_from false s')
  end.

Definition title (s : string) : string := title_from false s.

(** [str(n)] for integers. *)
Definition of_nat (n : nat) : string := NilZero.string_of_uint (Nat.to_uint n).
Definition of_Z (z : Z) : string := NilZero.string_of_int (Z.to_int z).

End Str.

(** ** The parsed document *)

(** The classes of strings that BeautifulSoup puts in a tree.  [get_text]
    yields only the strings whose class is exactly [NavigableString] or
    [CData]; comments, declarations and the strings of special containers
    (script, style, template, ruby) are left out. *)
Inductive string_class : Type :=
  | NavigableString
  | CData
  | Comment
  | OtherString.

(** A node of the tree: a string, or a tag with its name, the values of its
    [class] attribute and its contents. *)
Inductive node : Type :=
  | Text (k : string_class) (s : string)
  | Tag (name : string) (classes : list string) (contents : list node).

(** The [BeautifulSoup] object is itself a tag, named [[document]]. *)
Definition document (contents : list node) : node :=
  Tag "[document]" [] contents.

Definition contents_of (n : node) : list node :=
  match n with
  | Text _ _ => []
  | Tag _ _ cs => cs
  end.

(** [tag.descendants]: every node below a node, in document order. *)
Fixpoint subtree (n : node) : list node :=
  n :: match n with
       | Text _ _ => []
       | Tag _ _ cs => flat_map subtree cs
       end.

Definition descendants (n : node) : list node :=
  flat_map subtree (contents_of n).

Definition has_name (nm : string) (n : node) : bool :=
  match n with
  | Text _ _ => false
  | Tag nm' _ _ => String.eqb nm' nm
  end.

(** [class_=c] for a class name without spaces: one of the values of the
    attribute is [c]. *)
Definition has_class (c : string) (n : node) : bool :=
  match n with
  | Text _ _ => false
  | Tag _ cls _ => existsb (String.eqb c) cls
  end.

(** [tag.find(...)]: the first descendant, in document order, that matches. *)
Fixpoint find_in (p : node -> bool) (n : node) : option node :=
  if p n then Some n
  else match n with
       | Text _ _ => None
       | Tag _ _ cs =>
           (fix first (l : list node) : option node :=
              match l with
              | [] => None
              | c :: l' =>
                  match find_in p c with
                  | Some r => Some r
                  | None => first l'
                  end
              end) cs
       end.

Fixpoint find_first (p : node -> bool) (l : list node) : option node :=
  match l with
  | [] => None
  | c :: l' =>
      match find_in p c with
      | Some r => Some r
      | None => find_first p l'
      end
  end.

Definition find (p : node -> bool) (n : node) : option node :=
  find_first p (contents_of n).

(** ** extract_text_content *)

Definition unwanted_names : list string :=
  ["script"; "style"; "nav"; "header"; "footer"].

Definition is_unwanted (n : node) : bool :=
  existsb (fun nm => has_name nm n) unwanted_names.

(** [for element in soup([...]): element.decompose()]: every descendant
    whose name is in the list leaves the tree, with all that it contains. *)
Fixpoint decompose_all (n : node) : list node :=
  if is_unwanted n then []
  else match n with
       | Text _ _ => [n]
       | Tag nm cls cs => [Tag nm cls (flat_map decompose_all cs)]
       end.

Definition remove_unwanted (soup : node) : node :=
  match soup with
  | Text _ _ => soup
  | Tag nm cls cs => Tag nm cls (flat_map decompose_all cs)
  end.

(** [a or b] on the results of [find]: a tag is always true. *)
Definition or_else {A} (a : option A) (b : option A) : option A :=
  match a with
  | Some _ => a
  | None => b
  end.

Definition main_content (soup : node) : node :=
  let candidate :=
    or_else (find (has_name "main") soup)
   (or_else (find (has_name "article") soup)
   (or_else (find (fun n => has_name "div" n && has_class "content" n) soup)
   (or_else (find (fun n => has_name "div" n && has_class "documentation" n) soup)
            (find (has_name "body") soup)))) in
  match candidate with
  | Some t => t
  | None => soup
  end.

Definition interesting (k : string_class) : bool :=
  match k with
  | NavigableString | CData => true
  | Comment | OtherString => false
  end.

(** The strings that [get_text(strip=True)] yields: stripped, and dropped
    when nothing is left. *)
Definition stripped_string (n : node) : list string :=
  match n with
  | Text k s =>
      if interesting k && negb (Str.is_empty (Str.strip s))
      then [Str.strip s] else []
  | Tag _ _ _ => []
  end.

Definition get_text (sep : string) (n : node) : string :=
  Str.join sep (flat_map stripped_string (descendants n)).

Section Extractor.

(** [BeautifulSoup(html, 'html.parser')]: the contents of the document that
    the parser builds. *)
Variable html_parser : string -> list node.

(** The text that [get_text] hands to the regular expression. *)
Definition raw_text (html_content : string) : string :=
  get_text " " (main_content (remove_unwanted (document (html_parser html_content)))).

Definition extract_text_content (html_content : string) : string :=
  let soup := document (html_parser html_content) in
  let soup := remove_unwanted soup in
  let main_content := main_content soup in
  let text := get_text " " main_content in
  let text := Str.re_sub_spaces text in
  text.

End Extractor.

(** ** find_relevant_sections *)

(** [sum(sentence_lower.count(term) for term in query_terms)]. *)
Definition score (query_terms : list string) (sentence : string) : nat :=
  let sentence_lower := Str.lower sentence in
  sum_list (map (fun term => Str.count sentence_lower term) query_terms).

(** [list.sort(key=lambda x: x[1], reverse=True)].  Python's sort is
    stable, also under [reverse=True]: an element is placed behind every
    element that does not have a smaller key and came before it. *)
Fixpoint insert_desc {A} (x : A * nat) (l : list (A * nat)) : list (A * nat) :=
  match l with
  | [] => [x]
  | y :: l' =>
      if (snd x <? snd y)%nat then y :: insert_desc x l' else x :: y :: l'
  end.

Fixpoint sort_desc {A} (l : list (A * nat)) : list (A * nat) :=
  match l with
  | [] => []
  | x :: l' => insert_desc x (sort_desc l')
  end.

(** The condition of the comprehension: [s.strip() and len(s.strip()) > 20]. *)
Definition long_enough (s : string) : bool :=
  negb (Str.is_empty (Str.strip s)) && (20 <? String.length (Str.strip s))%nat.

Definition find_relevant_sections (content query : string) : list string :=
  let sentences := map Str.strip (filter long_enough (Str.split_on "." content)) in
  let query_terms := Str.split (Str.lower query) in
  let relevant_sections :=
    fold_left
      (fun relevant_sections sentence =>
         let score := score query_terms sentence in
         if (0 <? score)%nat
         then (relevant_sections ++ [(sentence, score)])%list
         else relevant_sections)
      sentences [] in
  let relevant_sections := sort_desc relevant_sections in
  map fst (take 5 relevant_sections).

(** *** The ranker as the specification words it *)

Module Reference.

(** The pieces with score [m], then those with score [m - 1], and so on
    down to 0, each group in the order of the input: a sort by descending
    score in which ties keep the order of first encounter. *)
Fixpoint by_score_from {A} (m : nat) (l : list (A * nat)) : list (A * nat) :=
  (filter (fun p => snd p =? m)%nat l ++
   match m with
   | O => []
   | S m' => by_score_from m' l
   end)%list.

Definition stable_sort_desc {A} (l : list (A * nat)) : list (A * nat) :=
  by_score_from (foldr Nat.max 0%nat (map snd l)) l.

Definition find_relevant_sections (text query : string) : list string :=
  let pieces := Str.split_on "." text in
  let trimmed := map Str.strip pieces in
  let surviving :=
    filter (fun t => negb (Str.is_empty t) && negb (String.length t <=? 20)%nat)
           trimmed in
  let terms := map Str.lower (Str.split query) in
  let scored :=
    map (fun t =>
           (t, sum_list (map (fun term => Str.count (Str.lower t) term) terms)))
        surviving in
  let positive := filter (fun p => negb (snd p =? 0)%nat) scored in
  map fst (take 5 (stable_sort_desc positive)).

End Reference.

(** ** The process: globals, log, network and exceptions *)

(** The exceptions that the program can meet, all of them subclasses of
    [Exception]: a failed subscript of a dictionary, and a failure of the
    HTTP client (time-out, name resolution, connection reset, a body that
    cannot be read) and a markup that BeautifulSoup refuses to parse, each
    with the text that [str(e)] gives. *)
Inductive exn : Type :=
  | KeyError (key : string)
  | ClientError (msg : string)
  | ParserRejectedMarkup (msg : string).

Inductive level : Type := INFO | ERROR.

Record state : Type := State {
  doc_cache : gmap string string;       (* the global [doc_cache] *)
  session : bool;                       (* the global [session] is not None *)
  requests : list string;               (* URLs of the GETs issued, oldest first *)
  log : list (level * string)           (* records of [logger], oldest first *)
}.

Inductive outcome (A : Type) : Type :=
  | Return (a : A)
  | Raise (e : exn).
Arguments Return {A} a.
Arguments Raise {A} e.

Definition M (A : Type) : Type := state -> outcome A * state.

Definition ret {A} (a : A) : M A := fun st => (Return a, st).

Definition raise {A} (e : exn) : M A := fun st => (Raise e, st).

Definition bind {A B} (m : M A) (k : A -> M B) : M B :=
  fun st =>
    match m st with
    | (Return a, st') => k a st'
    | (Raise e, st') => (Raise e, st')
    end.

(** [try: m  except Exception as e: h e]. *)
Definition try_except {A} (m : M A) (h : exn -> M A) : M A :=
  fun st =>
    match m st with
    | (Return a, st') => (Return a, st')
    | (Raise e, st') => h e st'
    end.

Notation "x <- m ;; k" := (bind m (fun x => k))
  (at level 100, m at next level, right associativity).

(** [for x in l: acc = body acc x]. *)
Fixpoint for_each {A B} (body : B -> A -> M B) (l : list A) (acc : B) : M B :=
  match l with
  | [] => ret acc
  | x :: l' => acc' <- body acc x ;; for_each body l' acc'
  end.

Definition logger (lv : level) (msg : string) : M unit :=
  fun st =>
    (Return tt,
     {| doc_cache := doc_cache st; session := session st;
        requests := requests st; log := (log st ++ [(lv, msg)])%list |}).

(** [source_name in doc_cache], [doc_cache[source_name]],
    [doc_cache[source_name] = content] and [doc_cache.clear()]. *)
Definition cache_mem (source_name : string) : M bool :=
  fun st => (Return (bool_decide (is_Some (doc_cache st !! source_name))), st).

Definition cache_get (source_name : string) : M string :=
  fun st =>
    match doc_cache st !! source_name with
    | Some content => (Return content, st)
    | None => (Raise (KeyError source_name), st)
    end.

Definition cache_set (source_name content : string) : M unit :=
  fun st =>
    (Return tt,
     {| doc_cache := <[source_name := content]> (doc_cache st);
        session := session st; requests := requests st; log := log st |}).

Definition cache_clear : M unit :=
  fun st =>
    (Return tt,
     {| doc_cache := ∅; session := session st;
        requests := requests st; log := log st |}).

(** ** The Source Registry *)

Definition DOC_SOURCES : list (string * string) :=
  [ ("crc", "https://crc.dev/docs");
    ("crc-blog", "https://crc.dev/blog");
    ("crc-dev", "https://crc.dev/engineering-docs") ].

Fixpoint assoc (k : string) (d : list (string * string)) : option string :=
  match d with
  | [] => None
  | (k', v) :: d' => if String.eqb k k' then Some v else assoc k d'
  end.

(** [source_name in DOC_SOURCES], [DOC_SOURCES[source_name]] and
    [list(DOC_SOURCES.keys())]. *)
Definition in_sources (source_name : string) : bool :=
  match assoc source_name DOC_SOURCES with
  | Some _ => true
  | None => false
  end.

Definition sources_get (source_name : string) : M string :=
  match assoc source_name DOC_SOURCES with
  | Some url => ret url
  | None => raise (KeyError source_name)
  end.

Definition sources_keys : list string := map fst DOC_SOURCES.

(** ** The tools *)

(** What the network answers to a GET: no response at all (the request
    raises), or a response with its status and its body, whose reading can
    fail in turn. *)
Inductive body : Type :=
  | BodyText (html : string)
  | BodyFails (msg : string).

Inductive reply : Type :=
  | NoResponse (msg : string)
  | Response (status : Z) (text : body).

Definition nl : string := String (ascii_of_nat 10) EmptyString.

Record result : Type := Result {
  source : string;
  url : string;
  sections : list string
}.

Section Server.

Variable html_parser : string -> list node.

(** [BeautifulSoup(html, 'html.parser')] raises on some markup instead of
    building a tree: [parser_rejects html] is then the text of the
    exception, and [html_parser html] is the tree built otherwise. *)
Variable parser_rejects : string -> option string.

(** [network n url] is the answer to the GET of [url] when [n] requests
    were issued before it in the life of the process. *)
Variable network : nat -> string -> reply.

Definition get_session : M unit :=
  fun st =>
    (Return tt,
     {| doc_cache := doc_cache st;
        session := if session st then session st else true;
        requests := requests st; log := log st |}).

(** [session.get(url, timeout=10)]. *)
Definition session_get (url : string) : M (Z * body) :=
  fun st =>
    let st' := {| doc_cache := doc_cache st; session := session st;
                  requests := (requests st ++ [url])%list; log := log st |} in
    match network (length (requests st)) url with
    | NoResponse msg => (Raise (ClientError msg), st')
    | Response status text => (Return (status, text), st')
    end.

(** [await response.text()]. *)
Definition response_text (text : body) : M string :=
  match text with
  | BodyText html => ret html
  | BodyFails msg => raise (ClientError msg)
  end.

(** [str(e)]. *)
Definition str_exn (e : exn) : string :=
  match e with
  | KeyError key => "'" +:+ key +:+ "'"
  | ClientError msg => msg
  | ParserRejectedMarkup msg => msg
  end.

(** The call [extract_text_content(html_content)], which raises when the
    parser does. *)
Definition call_extract_text_content (html_content : string) : M string :=
  match parser_rejects html_content with
  | Some msg => raise (ParserRejectedMarkup msg)
  | None => ret (extract_text_content html_parser html_content)
  end.

Definition fetch_documentation (source_name : string) : M string :=
  if negb (in_sources source_name)
  then ret ("Unknown source: " +:+ source_name)
  else
    url <- sources_get source_name ;;
    _ <- get_session ;;
    try_except
      (response <- session_get url ;;
       if (fst response =? 200)%Z
       then
         html_content <- response_text (snd response) ;;
         call_extract_text_content html_content
       else
         ret ("Failed to fetch " +:+ url +:+ " (Status: "
              +:+ Str.of_Z (fst response) +:+ ")"))
      (fun e =>
         _ <- logger ERROR ("Error fetching " +:+ url +:+ ": " +:+ str_exn e) ;;
         ret ("Error fetching " +:+ url +:+ ": " +:+ str_exn e)).

(** The body of the loop over [sources]. *)
Definition query_source (query : string) (results : list result)
    (source_name : string) : M (list result) :=
  if negb (in_sources source_name)
  then ret results
  else
    cached <- cache_mem source_name ;;
    content <-
      (if negb cached
       then
         _ <- logger INFO ("Fetching documentation from " +:+ source_name) ;;
         content <- fetch_documentation source_name ;;
         _ <- cache_set source_name content ;;
         ret content
       else cache_get source_name) ;;
    let relevant_sections := find_relevant_sections content query in
    match relevant_sections with
    | [] => ret results
    | _ :: _ =>
        url <- sources_get source_name ;;
        ret (results ++ [ {| source := source_name; url := url;
                             sections := relevant_sections |} ])%list
    end.

(** [for i, section in enumerate(sections, 1): response += ...]. *)
Fixpoint format_sections (i : nat) (sections : list string) (response : string)
    : string :=
  match sections with
  | [] => response
  | section :: rest =>
      format_sections (S i) rest
        (response +:+ "**" +:+ Str.of_nat i +:+ ".** " +:+ section +:+ nl +:+ nl)
  end.

Definition format_result (response : string) (r : result) : string :=
  let response :=
    response +:+ "## "
    +:+ Str.title (Str.replace_char "-" " " (source r)) +:+ nl in
  let response := response +:+ "**Source:** " +:+ url r +:+ nl +:+ nl in
  let response := format_sections 1 (sections r) response in
  response +:+ "---" +:+ nl +:+ nl.

Definition format_response (query : string) (results : list result) : string :=
  match results with
  | [] => "No relevant information found for: '" +:+ query +:+ "'"
  | _ :: _ =>
      fold_left format_result results
        ("# CRC Documentation Results" +:+ nl +:+ nl
         +:+ "**Query:** " +:+ query +:+ nl +:+ nl)
  end.

Definition crc_doc_query (query : string) (sources : option (list string))
    : M string :=
  if Str.is_empty query
  then ret "Please provide a query."
  else
    let sources :=
      match sources with
      | None => sources_keys
      | Some l => l
      end in
    results <- for_each (query_source query) sources [] ;;
    ret (format_response query results).

Definition clear_cache : M string :=
  _ <- cache_clear ;;
  ret "Documentation cache cleared. Fresh content will be fetched on next query.".

End Server.

(** ** Predicates used in the statements *)

(** The first, respectively last, character of a string is white space. *)
Definition first_is_space (s : string) : bool :=
  match s with
  | EmptyString => false
  | String c _ => Str.isspace c
  end.

Fixpoint last_is_space (s : string) : bool :=
  match s with
  | EmptyString => false
  | String c s' => if Str.is_empty s' then Str.isspace c else last_is_space s'
  end.

(** No two neighbouring characters are both white space; [prev] tells that
    the character before the string is white space. *)
Fixpoint space_run_free (prev : bool) (s : string) : bool :=
  match s with
  | EmptyString => true
  | String c s' =>
      if Str.isspace c then negb prev && space_run_free true s'
      else space_run_free false s'
  end.

(** Every white-space character is the space itself. *)
Fixpoint only_plain_spaces (s : string) : bool :=
  match s with
  | EmptyString => true
  | String c s' =>
      (negb (Str.isspace c) || Ascii.eqb c " ") && only_plain_spaces s'
  end.

(** A piece that [get_text] yields: not empty, white space at neither end. *)
Definition clean_piece (p : string) : Prop :=
  Str.is_empty p = false /\ first_is_space p = false /\ last_is_space p = false.

(** ** The document tree, declaratively *)

(** The first node in document order, below [soup], that satisfies [p]. *)
Definition first_match (p : node -> bool) (soup : node) : option node :=
  head (filter (fun n => p n = true) (descendants soup)).

(** The strings of a document that lie outside every script, style, nav,
    header and footer element and that [get_text] would look at. *)
Fixpoint visible_strings (n : node) : list string :=
  if is_unwanted n then []
  else match n with
       | Text k s => if interesting k then [s] else []
       | Tag _ _ cs => flat_map visible_strings cs
       end.

(** Two trees that differ at most inside such elements. *)
Inductive agree_outside : node -> node -> Prop :=
  | agree_text k s :
      agree_outside (Text k s) (Text k s)
  | agree_unwanted n1 n2 :
      is_unwanted n1 = true -> is_unwanted n2 = true -> agree_outside n1 n2
  | agree_tag nm cls cs1 cs2 :
      Forall2 agree_outside cs1 cs2 ->
      agree_outside (Tag nm cls cs1) (Tag nm cls cs2).

(** The first selector of a list, in the order of the list, that matches
    somewhere in the document decides the root, which is then the first
    match of that selector; the document itself when none matches. *)
Fixpoint first_of (selectors : list (node -> bool)) (soup : node) : node :=
  match selectors with
  | [] => soup
  | p :: rest =>
      match first_match p soup with
      | Some t => t
      | None => first_of rest soup
      end
  end.

Definition div_with_class (c : string) (n : node) : bool :=
  has_name "div" n && has_class c n.

(** The selectors of [extract_text_content]. *)
Definition root_selectors : list (node -> bool) :=
  [ has_name "main"; has_name "article"; div_with_class "content";
    div_with_class "documentation"; has_name "body" ].

(** The choice of the content root as the specification words it: the
    first element with class [content], then the first element with class
    [documentation], whatever their names. *)
Module Claimed.

Definition root_selectors : list (node -> bool) :=
  [ has_name "main"; has_name "article"; has_class "content";
    has_class "documentation"; has_name "body" ].

Definition extract_text_content (html_parser : string -> list node)
    (html_content : string) : string :=
  let soup := remove_unwanted (document (html_parser html_content)) in
  Str.re_sub_spaces (get_text " " (first_of root_selectors soup)).

End Claimed.

(** ** Sorting by score, declaratively *)

(** The scores never increase along the list. *)
Fixpoint descending {A} (l : list (A * nat)) : Prop :=
  match l with
  | [] => True
  | x :: l' => Forall (fun y => snd y <= snd x) l' /\ descending l'
  end.

(** The elements with score [k], in the order of the list. *)
Definition with_score {A} (k : nat) (l : list (A * nat)) : list (A * nat) :=
  filter (fun p => snd p =? k)%nat l.

(** ** The loop over the sources, declaratively *)

(** The result block of one source: none when the ranker finds nothing. *)
Definition entry (source_name url : string) (sections : list string)
    : list result :=
  match sections with
  | [] => []
  | _ :: _ => [ {| source := source_name; url := url; sections := sections |} ]
  end.

(** The results of a query over a list of sources, read off a cache that
    holds the text of every registered source of the list: the sources in
    the order of the list, the unregistered ones and the ones without a
    ranked fragment left out. *)
Definition results_from (query : string) (cache : gmap string string)
    (sources : list string) : list result :=
  flat_map
    (fun source_name =>
       match assoc source_name DOC_SOURCES, cache !! source_name with
       | Some url, Some content =>
           entry source_name url (find_relevant_sections content query)
       | _, _ => []
       end)
    sources.

(** The sources of a list that a query has to fetch: the registered ones
    that are neither cached nor fetched earlier in the same query. *)
Fixpoint misses (sources : list string) (cached : gset string) : list string :=
  match sources with
  | [] => []
  | source_name :: rest =>
      if in_sources source_name && bool_decide (source_name ∉ cached)
      then source_name :: misses rest ({[source_name]} ∪ cached)
      else misses rest cached
  end.

Definition url_of (source_name : string) : string :=
  default "" (assoc source_name DOC_SOURCES).

(** The text that [fetch_documentation] returns for a registered source
    with address [url], given the answer of the network and the inputs that
    the parser rejects. *)
Definition fetched_text (html_parser : string -> list node)
    (parser_rejects : string -> option string) (url : string)
    (answer : reply) : string :=
  match answer with
  | NoResponse msg => "Error fetching " +:+ url +:+ ": " +:+ msg
  | Response status text =>
      if (status =? 200)%Z
      then match text with
           | BodyText html =>
               match parser_rejects html with
               | Some msg => "Error fetching " +:+ url +:+ ": " +:+ msg
               | None => extract_text_content html_parser html
               end
           | BodyFails msg => "Error fetching " +:+ url +:+ ": " +:+ msg
           end
      else "Failed to fetch " +:+ url +:+ " (Status: "
           +:+ Str.of_Z status +:+ ")"
  end.

(** The text of a fetch as the specification words it: the extracted text
    of the body for every status 200, the error message for a failure of
    the transport only.  The specification asks of the extractor that it
    never fails and takes what it cannot parse for plain text. *)
Module ClaimedFetch.

Definition graceful_parser (html : string) : list node :=
  [Text NavigableString html].

Definition fetched_text (url : string) (answer : reply) : string :=
  match answer with
  | NoResponse msg => "Error fetching " +:+ url +:+ ": " +:+ msg
  | Response status text =>
      if (status =? 200)%Z
      then match text with
           | BodyText html => extract_text_content graceful_parser html
           | BodyFails msg => "Error fetching " +:+ url +:+ ": " +:+ msg
           end
      else "Failed to fetch " +:+ url +:+ " (Status: "
           +:+ Str.of_Z status +:+ ")"
  end.

End ClaimedFetch.

(** The target list of a query. *)
Definition targets_of (sources : option (list string)) : list string :=
  match sources with
  | None => ["crc"; "crc-blog"; "crc-dev"]
  | Some l => l
  end.

(** The ranker finds something in the cached text of a source. *)
Definition has_sections (query : string) (cache : gmap string string)
    (source_name : string) : bool :=
  match cache !! source_name with
  | Some content =>
      match find_relevant_sections content query with
      | [] => false
      | _ :: _ => true
      end
  | None => false
  end.

Definition no_results (query : string) : string :=
  "No relevant information found for: '" +:+ query +:+ "'".

(** The text that the cache holds for a source once it was queried: the
    entry that was there, else what the fetch returns at that moment. *)
Definition stored_text (html_parser : string -> list node)
    (parser_rejects : string -> option string)
    (network : nat -> string -> reply) (source_name url : string) (st : state)
    : string :=
  match doc_cache st !! source_name with
  | Some content => content
  | None => fetched_text html_parser parser_rejects url (network (length (requests st)) url)
  end.

(** ** Test doubles *)

(** A parser that takes its whole input for the text of a body. *)
Definition plain_parser (html : string) : list node :=
  [Tag "body" [] [Text NavigableString html]].

(** A parser that rejects nothing, and one that rejects, as html.parser
    does, a marked section that it does not know. *)
Definition accepts_all (html : string) : option string := None.

Definition strict_parser (html : string) : option string :=
  if (0 <? Str.count html "<![")%nat
  then Some "AssertionError: unknown status keyword 'a' in marked section"
  else None.

(** A network whose first request times out and whose later requests are
    answered with a page. *)
Definition flaky_network (n : nat) (url : string) : reply :=
  match n with
  | O => NoResponse "timeout"
  | S _ =>
      Response 200
        (BodyText "CRC is great. OpenShift Local runs on a virtual machine.")
  end.

Definition fresh : state :=
  {| doc_cache := ∅; session := false; requests := []; log := [] |}.

(** ** The ranker, its candidates *)

(** The sentences that the ranker scores: the trimmed pieces between full
    stops that are longer than 20 characters. *)
Definition candidates (content : string) : list string :=
  map Str.strip (filter long_enough (Str.split_on "." content)).

(** The score of a sentence for a query. *)
Definition query_score (query sentence : string) : nat :=
  score (Str.split (Str.lower query)) sentence.

(** The candidates that the query finds. *)
Definition qualifying (content query : string) : list string :=
  filter (fun t => (0 <? query_score query t)%nat) (candidates content).

(** The characters of a string. *)
Definition chars (s : string) : list ascii := list_ascii_of_string s.

(** ** The fetcher and the cache, their effects *)

(** The answers of the network that make [fetch_documentation] take its
    exception handler: no response, a 200 whose body cannot be read, or a
    200 whose body the parser rejects. *)
Definition fetch_failed (parser_rejects : string -> option string)
    (answer : reply) : bool :=
  match answer with
  | NoResponse _ => true
  | Response status (BodyFails _) => (status =? 200)%Z
  | Response status (BodyText html) =>
      (status =? 200)%Z && bool_decide (is_Some (parser_rejects html))
  end.

(** Every key of the cache is a registered source. *)
Definition cache_registered (st : state) : Prop :=
  forall source_name,
    is_Some (doc_cache st !! source_name) -> in_sources source_name = true.

(** The answer of the network is a page: status 200 and a body that can
    be read. *)
Definition is_page (answer : reply) : bool :=
  match answer with
  | Response status (BodyText _) => (status =? 200)%Z
  | _ => false
  end.

(** ** The report, declaratively *)

(** The fragments of a block, numbered from [i]. *)
Fixpoint numbered (i : nat) (sections : list string) : string :=
  match sections with
  | [] => ""
  | section :: rest =>
      "**" +:+ Str.of_nat i +:+ ".** " +:+ section +:+ nl +:+ nl
      +:+ numbered (S i) rest
  end.

Definition render_block (r : result) : string :=
  "## " +:+ Str.title (Str.replace_char "-" " " (source r)) +:+ nl
  +:+ "**Source:** " +:+ url r +:+ nl +:+ nl
  +:+ numbered 1 (sections r)
  +:+ "---" +:+ nl +:+ nl.

Definition report_header (query : string) : string :=
  "# CRC Documentation Results" +:+ nl +:+ nl
  +:+ "**Query:** " +:+ query +:+ nl +:+ nl.

(** A state in which the first source is cached. *)
Definition warm : state :=
  {| doc_cache := {[ "crc" := "OpenShift Local runs on a virtual machine." ]};
     session := true; requests := ["https://crc.dev/docs"]; log := [] |}.

(** * Properties *)

(** ** Strings *)

Lemma is_empty_true s : Str.is_empty s = true -> s = "".
Proof. by destruct s. Qed.

Lemma first_is_space_get s c :
  first_is_space s = false -> String.get 0 s = Some c -> Str.isspace c = false.
Proof. destruct s; simpl; congruence. Qed.

Lemma last_is_space_get s c :
  last_is_space s = false ->
  String.get (String.length s - 1) s = Some c -> Str.isspace c = false.
Proof.
  induction s as [|d s IH]; simpl; [congruence|].
  destruct s as [|e s]; simpl in *; [congruence|].
  intros H. rewrite Nat.sub_0_r in IH. auto.
Qed.

Lemma space_run_free_get s : forall prev i c1 c2,
  space_run_free prev s = true ->
  String.get i s = Some c1 -> String.get (S i) s = Some c2 ->
  Str.isspace c1 = true -> Str.isspace c2 = true -> False.
Proof.
  induction s as [|d s IH]; intros prev i c1 c2 Hf H1 H2 S1 S2; [done|].
  simpl in Hf. destruct i as [|i].
  - simpl in H1, H2. injection H1 as ->. rewrite S1 in Hf.
    destruct s as [|e s]; [done|]. simpl in H2. injection H2 as ->.
    simpl in Hf. rewrite S2 in Hf. simpl in Hf.
    by rewrite andb_false_r in Hf.
  - simpl in H1. change (String.get (S (S i)) (String d s)) with (String.get (S i) s) in H2.
    destruct (Str.isspace d).
    + apply andb_true_iff in Hf as [_ Hf]. eauto.
    + eauto.
Qed.

Lemma only_plain_spaces_get s : forall i c,
  only_plain_spaces s = true ->
  String.get i s = Some c -> Str.isspace c = true -> c = " "%char.
Proof.
  induction s as [|d s IH]; intros i c Hp Hg Hs; [done|].
  simpl in Hp. apply andb_true_iff in Hp as [Hd Hp].
  destruct i as [|i]; simpl in Hg.
  - injection Hg as ->. rewrite Hs in Hd. simpl in Hd.
    by apply Ascii.eqb_eq in Hd.
  - eauto.
Qed.

Lemma lstrip_first s : first_is_space (Str.lstrip s) = false.
Proof.
  induction s as [|c s IH]; simpl; [done|].
  destruct (Str.isspace c) eqn:E; [done|]. by simpl.
Qed.

Lemma rstrip_last s : last_is_space (Str.rstrip s) = false.
Proof.
  induction s as [|c s IH]; simpl; [done|].
  destruct (Str.is_empty (Str.rstrip s)) eqn:E; simpl.
  - destruct (Str.isspace c) eqn:Ec; simpl; [done|]. by rewrite E.
  - by rewrite E.
Qed.

Lemma lstrip_last s : last_is_space s = false -> last_is_space (Str.lstrip s) = false.
Proof.
  induction s as [|c s IH]; [done|].
  intros H. simpl. destruct (Str.isspace c) eqn:Ec; [|done].
  simpl in H. rewrite Ec in H. destruct (Str.is_empty s); [done|]. auto.
Qed.

Lemma strip_first s : first_is_space (Str.strip s) = false.
Proof. apply lstrip_first. Qed.

Lemma strip_last s : last_is_space (Str.strip s) = false.
Proof. apply lstrip_last, rstrip_last. Qed.

Lemma is_empty_app a b :
  Str.is_empty (a +:+ b) = Str.is_empty a && Str.is_empty b.
Proof. by destruct a. Qed.

Lemma first_is_space_app a b :
  first_is_space (a +:+ b) =
  if Str.is_empty a then first_is_space b else first_is_space a.
Proof. by destruct a. Qed.

Lemma last_is_space_app a b :
  last_is_space (a +:+ b) =
  if Str.is_empty b then last_is_space a else last_is_space b.
Proof.
  induction a as [|c a IH]; simpl.
  - by destruct b.
  - rewrite is_empty_app, IH.
    by destruct (Str.is_empty a), (Str.is_empty b).
Qed.

Lemma join_cons sep p q ps :
  Str.join sep (p :: q :: ps) = p +:+ sep +:+ Str.join sep (q :: ps).
Proof. reflexivity. Qed.

Lemma join_nonempty sep q ps :
  Str.is_empty q = false -> Str.is_empty (Str.join sep (q :: ps)) = false.
Proof.
  intros Hq. destruct ps as [|r ps]; [done|].
  by rewrite join_cons, is_empty_app, Hq.
Qed.

Lemma join_clean ps :
  Forall clean_piece ps ->
  first_is_space (Str.join " " ps) = false /\
  last_is_space (Str.join " " ps) = false.
Proof.
  induction 1 as [|p ps (Hn & Hf & Hl) Hps [IHf IHl]]; [done|].
  destruct ps as [|q ps]; [done|].
  inversion Hps as [|? ? (Hq & _) _]; subst.
  pose proof (join_nonempty " " q ps Hq) as Hj.
  rewrite join_cons, first_is_space_app, Hn. split; [done|].
  set (J := Str.join " " (q :: ps)) in *.
  rewrite last_is_space_app. change (" " +:+ J) with (String " " J).
  simpl. by rewrite Hj.
Qed.

Lemma collapse_first s :
  first_is_space s = false -> first_is_space (Str.collapse false s) = false.
Proof. destruct s as [|c s]; simpl; [done|]. intros H. by rewrite H. Qed.

Lemma collapse_last s : forall b,
  last_is_space s = false -> Str.is_empty s = false ->
  Str.is_empty (Str.collapse b s) = false /\
  last_is_space (Str.collapse b s) = false.
Proof.
  induction s as [|c s IH]; intros b Hl He; [done|]. clear He.
  simpl in *. destruct (Str.is_empty s) eqn:Es.
  - apply is_empty_true in Es as ->. rewrite Hl. simpl. by rewrite Hl.
  - destruct (Str.isspace c) eqn:Ec.
    + destruct (IH true Hl eq_refl) as [H1 H2].
      destruct b; [done|]. simpl. by rewrite H1.
    + destruct (IH false Hl eq_refl) as [H1 H2]. simpl. by rewrite H1.
Qed.

Lemma collapse_run_free s : forall b,
  space_run_free b (Str.collapse b s) = true.
Proof.
  induction s as [|c s IH]; intros b; simpl; [done|].
  destruct (Str.isspace c) eqn:Ec.
  - destruct b; [apply IH|]. simpl. apply IH.
  - simpl. rewrite Ec. apply IH.
Qed.

Lemma collapse_plain s : forall b, only_plain_spaces (Str.collapse b s) = true.
Proof.
  induction s as [|c s IH]; intros b; simpl; [done|].
  destruct (Str.isspace c) eqn:Ec.
  - destruct b; [apply IH|]. simpl. apply IH.
  - simpl. rewrite Ec. simpl. apply IH.
Qed.

Lemma starts_word_collapse s :
  Str.starts_word (Str.collapse false s) = Str.starts_word s.
Proof.
  destruct s as [|c s]; simpl; [done|].
  destruct (Str.isspace c) eqn:Ec; simpl; by rewrite ?Ec.
Qed.

(** Collapsing keeps the words. *)
Lemma split_collapse s : forall b, Str.split (Str.collapse b s) = Str.split s.
Proof.
  induction s as [|c s IH]; intros b; simpl; [done|].
  destruct (Str.isspace c) eqn:Ec.
  - destruct b; [apply IH|]. simpl. apply IH.
  - simpl. by rewrite Ec, starts_word_collapse, IH.
Qed.

Lemma space_run_free_weaken s : space_run_free true s = true -> space_run_free false s = true.
Proof.
  destruct s as [|c s]; simpl; [done|]. by destruct (Str.isspace c).
Qed.

Lemma space_run_free_first s : space_run_free true s = true -> first_is_space s = false.
Proof.
  destruct s as [|c s]; simpl; [done|]. by destruct (Str.isspace c).
Qed.

Lemma lstrip_id s : first_is_space s = false -> Str.lstrip s = s.
Proof. destruct s as [|c s]; simpl; [done|]. by intros ->. Qed.

Lemma join_glue sep c w ws :
  Str.join sep (Str.glue c (w :: ws)) = String c (Str.join sep (w :: ws)).
Proof. by destruct ws. Qed.

Lemma join_nil_inv sep ws :
  Str.is_empty (Str.join sep ws) = false -> exists w ws', ws = w :: ws'.
Proof. destruct ws; [done|eauto]. Qed.

(** A text without runs of white space, whose white space is plain spaces
    and which does not end in one, is its words joined by single spaces,
    after a possible leading space. *)
Lemma join_split_normal s :
  last_is_space s = false -> space_run_free false s = true ->
  only_plain_spaces s = true ->
  Str.join " " (Str.split s) = Str.lstrip s.
Proof.
  induction s as [|c s IH]; [done|].
  intros Hl Hr Hp. simpl in Hl, Hr, Hp. apply andb_true_iff in Hp as [Hc Hp].
  simpl. destruct (Str.isspace c) eqn:Ec.
  - destruct (Str.is_empty s) eqn:Es; [done|].
    simpl in Hr. apply IH; auto using space_run_free_weaken.
  - destruct s as [|d s]; [done|].
    simpl in Hl. specialize (IH Hl Hr Hp).
    simpl Str.starts_word. destruct (Str.isspace d) eqn:Ed; simpl negb; cbv iota.
    + simpl in Hr, Hp. rewrite Ed in Hr, Hp. simpl in Hr, Hp.
      apply andb_true_iff in Hp as [Hd _]. apply Ascii.eqb_eq in Hd as ->.
      simpl in IH.
      rewrite (lstrip_id s) in IH by (by apply space_run_free_first).
      assert (Str.is_empty s = false) as Hs by (by destruct s).
      destruct (join_nil_inv " " (Str.split s)) as (w & ws & Hw).
      { by rewrite IH. }
      simpl Str.split. rewrite Hw, join_cons. by rewrite <- Hw, IH.
    + rewrite (lstrip_id (String d s)) in IH by (simpl; by rewrite Ed).
      destruct (join_nil_inv " " (Str.split (String d s))) as (w & ws & Hw).
      { by rewrite IH. }
      by rewrite Hw, join_glue, <- Hw, IH.
Qed.

(** ** The document tree *)

Lemma stripped_string_clean n : Forall clean_piece (stripped_string n).
Proof.
  destruct n as [k s|]; simpl; [|constructor].
  destruct (interesting k && negb (Str.is_empty (Str.strip s))) eqn:E;
    constructor; [|constructor].
  apply andb_true_iff in E as [_ E]. apply negb_true_iff in E.
  split; [done|]. split; [apply strip_first|apply strip_last].
Qed.

Lemma get_text_clean n :
  first_is_space (get_text " " n) = false /\
  last_is_space (get_text " " n) = false.
Proof.
  apply join_clean. induction (descendants n) as [|m l IH]; simpl.
  - constructor.
  - apply Forall_app. split; [apply stripped_string_clean|done].
Qed.

(** Induction on trees, with the hypothesis for every child of a tag. *)
Lemma node_induction (P : node -> Prop) :
  (forall k s, P (Text k s)) ->
  (forall nm cls cs, Forall P cs -> P (Tag nm cls cs)) ->
  forall n, P n.
Proof.
  intros HT HG. fix IH 1. intros [k s|nm cls cs]; [apply HT|].
  apply HG. induction cs as [|c cs IHcs]; constructor; [apply IH|apply IHcs].
Qed.

Lemma find_in_tag p nm cls cs :
  find_in p (Tag nm cls cs) =
  if p (Tag nm cls cs) then Some (Tag nm cls cs) else find_first p cs.
Proof.
  simpl. destruct (p (Tag nm cls cs)); [done|].
  induction cs as [|c cs IH]; simpl; [done|]. by rewrite IH.
Qed.

Lemma head_filter_app {A} (p : A -> bool) (l1 l2 : list A) :
  head (filter (fun x => p x = true) (l1 ++ l2)) =
  match head (filter (fun x => p x = true) l1) with
  | Some r => Some r
  | None => head (filter (fun x => p x = true) l2)
  end.
Proof.
  rewrite filter_app.
  by destruct (filter (fun x => p x = true) l1).
Qed.

(** [find] returns the first match in document order. *)
Lemma find_in_first p n :
  find_in p n = head (filter (fun m => p m = true) (subtree n)).
Proof.
  induction n as [k s|nm cls cs IH] using node_induction.
  - simpl. rewrite filter_cons. destruct (p (Text k s)) eqn:E.
    + by rewrite decide_True.
    + by rewrite decide_False by congruence.
  - rewrite find_in_tag. cbn [subtree]. rewrite filter_cons.
    destruct (p (Tag nm cls cs)) eqn:E.
    + by rewrite decide_True.
    + rewrite decide_False by congruence.
      clear E. induction IH as [|c cs Hc _ IHcs]; [done|].
      cbn [find_first flat_map]. by rewrite head_filter_app, <- Hc, IHcs.
Qed.

Lemma find_first_match p soup : find p soup = first_match p soup.
Proof.
  unfold find, first_match, descendants.
  induction (contents_of soup) as [|c cs IH]; [done|].
  cbn [find_first flat_map]. by rewrite head_filter_app, <- find_in_first, IH.
Qed.

Lemma first_match_in p soup r :
  first_match p soup = Some r -> In r (descendants soup) /\ p r = true.
Proof.
  unfold first_match. intros H. apply head_Some_elem_of in H.
  apply list_elem_of_filter in H as [H1 H2].
  by apply list_elem_of_In in H2.
Qed.

(** What lies below a node of a tree lies in the tree. *)
Lemma subtree_trans n : forall r m,
  In r (subtree n) -> In m (subtree r) -> In m (subtree n).
Proof.
  induction n as [k s|nm cls cs IH] using node_induction; intros r m Hr Hm.
  - destruct Hr as [<-|[]]. done.
  - destruct Hr as [<-|Hr]; [done|]. right.
    apply in_flat_map in Hr as (c & Hc & Hr). apply in_flat_map.
    exists c. split; [done|]. rewrite Forall_forall in IH.
    apply list_elem_of_In in Hc. eauto.
Qed.

Lemma descendants_subtree n m : In m (descendants n) -> In m (subtree n).
Proof. destruct n; [done|]. by right. Qed.

Lemma descendants_trans n r m :
  In r (descendants n) -> In m (descendants r) -> In m (descendants n).
Proof.
  unfold descendants at 1 3. intros Hr Hm.
  apply in_flat_map in Hr as (c & Hc & Hr). apply in_flat_map.
  exists c. split; [done|].
  eapply subtree_trans; [exact Hr|]. by apply descendants_subtree.
Qed.

(** The strings that survive the removal are the visible strings. *)
Lemma decompose_all_visible n : forall k s,
  In (Text k s) (flat_map subtree (decompose_all n)) ->
  interesting k = true -> In s (visible_strings n).
Proof.
  induction n as [k0 s0|nm cls cs IH] using node_induction; intros k s Hin Hk.
  - simpl in *. destruct Hin as [[= -> ->]|[]]. rewrite Hk. by left.
  - cbn [decompose_all visible_strings] in *.
    destruct (is_unwanted (Tag nm cls cs)); [done|].
    cbn [flat_map subtree] in Hin. rewrite app_nil_r in Hin.
    destruct Hin as [[=]|Hin].
    apply in_flat_map in Hin as (c & Hc & Hin).
    apply in_flat_map in Hc as (d & Hd & Hc).
    apply in_flat_map. exists d. split; [done|].
    rewrite Forall_forall in IH. apply list_elem_of_In in Hd.
    apply (IH d Hd k s); [|done].
    apply in_flat_map. eauto.
Qed.

Lemma is_unwanted_tag nm cls1 cs1 cls2 cs2 :
  is_unwanted (Tag nm cls1 cs1) = is_unwanted (Tag nm cls2 cs2).
Proof. reflexivity. Qed.

(** Trees that agree outside the unwanted elements are the same tree once
    these elements are removed. *)
Lemma agree_outside_decompose n1 : forall n2,
  agree_outside n1 n2 -> decompose_all n1 = decompose_all n2.
Proof.
  induction n1 as [k s|nm cls cs IH] using node_induction; intros n2 H.
  - inversion H as [| ? ? H1 H2 |]; subst; [done|].
    by simpl in H1.
  - inversion H as [| ? ? H1 H2 | ? ? ? cs2 Hcs]; subst.
    + cbn [decompose_all]. rewrite H1.
      destruct n2; cbn [decompose_all]; by rewrite H2.
    + cbn [decompose_all].
      rewrite (is_unwanted_tag nm cls cs2 cls cs).
      destruct (is_unwanted (Tag nm cls cs)); [done|]. do 2 f_equal.
      clear H. induction Hcs as [|c c2 cs cs2 Hc Hcs IHcs]; [done|].
      inversion IH as [|? ? IHc IHcs']; subst.
      cbn [flat_map]. by rewrite (IHc _ Hc), IHcs.
Qed.

(** Words and joins, words and strips. *)
Lemma starts_word_split s :
  Str.starts_word s = true -> exists w ws, Str.split s = w :: ws.
Proof.
  destruct s as [|c s]; [done|]. simpl. intros H.
  apply negb_true_iff in H. rewrite H.
  destruct (Str.starts_word s); [|eauto].
  destruct (Str.split s); simpl; eauto.
Qed.

Lemma starts_word_app_space a b :
  Str.starts_word (a +:+ String " " b) = Str.starts_word a.
Proof. by destruct a. Qed.

Lemma split_app_space a b :
  Str.split (a +:+ String " " b) = (Str.split a ++ Str.split b)%list.
Proof.
  induction a as [|c a IH]; [done|].
  change (String c a +:+ String " " b) with (String c (a +:+ String " " b)).
  cbn [Str.split]. rewrite starts_word_app_space, IH.
  destruct (Str.isspace c); [done|].
  destruct (Str.starts_word a) eqn:E; [|done].
  destruct (starts_word_split a E) as (w & ws & ->). done.
Qed.

Lemma split_join_in w ps :
  In w (Str.split (Str.join " " ps)) -> exists p, In p ps /\ In w (Str.split p).
Proof.
  induction ps as [|p ps IH]; [done|].
  destruct ps as [|q ps].
  - intros H. exists p. split; [by left|done].
  - rewrite join_cons.
    change (" " +:+ Str.join " " (q :: ps)) with (String " " (Str.join " " (q :: ps))).
    rewrite split_app_space, in_app_iff. intros [H|H].
    + exists p. split; [by left|done].
    + destruct (IH H) as (r & Hr & Hw). exists r. split; [by right|done].
Qed.

Lemma split_lstrip s : Str.split (Str.lstrip s) = Str.split s.
Proof.
  induction s as [|c s IH]; [done|]. simpl.
  destruct (Str.isspace c) eqn:E; [done|]. simpl. by rewrite E.
Qed.

Lemma starts_word_rstrip s : Str.starts_word (Str.rstrip s) = Str.starts_word s.
Proof.
  destruct s as [|c s]; [done|]. simpl.
  destruct (Str.isspace c) eqn:E.
  - destruct (Str.is_empty (Str.rstrip s)); simpl; by rewrite ?E.
  - rewrite andb_false_r. simpl. by rewrite E.
Qed.

Lemma split_rstrip s : Str.split (Str.rstrip s) = Str.split s.
Proof.
  induction s as [|c s IH]; [done|]. simpl.
  destruct (Str.is_empty (Str.rstrip s) && Str.isspace c) eqn:E.
  - apply andb_true_iff in E as [E1 E2]. rewrite E2, <- IH.
    by apply is_empty_true in E1 as ->.
  - simpl. by rewrite starts_word_rstrip, IH.
Qed.

Lemma split_strip s : Str.split (Str.strip s) = Str.split s.
Proof. unfold Str.strip. by rewrite split_lstrip, split_rstrip. Qed.

Section ExtractorFacts.

Variable html_parser : string -> list node.

(** C8: the text returned by the extractor has no two neighbouring
    white-space characters and no white space at either end; its white
    space is plain spaces only and its words are the words of the raw
    extracted text, so that every run of white space of the raw text has
    become exactly one space: the result is the words of the raw text
    joined by single spaces. *)
Theorem extract_text_content_normalized (html_content : string) :
  let out := extract_text_content html_parser html_content in
  (forall i c1 c2,
     String.get i out = Some c1 -> String.get (S i) out = Some c2 ->
     ~ (Str.isspace c1 = true /\ Str.isspace c2 = true))
  /\ (forall c, String.get 0 out = Some c -> Str.isspace c = false)
  /\ (forall c, String.get (String.length out - 1) out = Some c ->
                Str.isspace c = false)
  /\ (forall i c, String.get i out = Some c -> Str.isspace c = true ->
                  c = " "%char)
  /\ Str.split out = Str.split (raw_text html_parser html_content)
  /\ out = Str.join " " (Str.split (raw_text html_parser html_content)).
Proof.
  intros out.
  assert (out = Str.collapse false (raw_text html_parser html_content)) as Hout by done.
  destruct (get_text_clean
    (main_content (remove_unwanted (document (html_parser html_content)))))
    as [Hf Hl].
  fold (raw_text html_parser html_content) in Hf, Hl.
  assert (first_is_space out = false) as Hof.
  { rewrite Hout. by apply collapse_first. }
  assert (last_is_space out = false) as Hol.
  { rewrite Hout. destruct (Str.is_empty (raw_text html_parser html_content)) eqn:E.
    - apply is_empty_true in E. by rewrite E.
    - by apply collapse_last. }
  assert (space_run_free false out = true) as Hor.
  { rewrite Hout. apply collapse_run_free. }
  assert (only_plain_spaces out = true) as Hop.
  { rewrite Hout. apply collapse_plain. }
  assert (Str.split out = Str.split (raw_text html_parser html_content)) as Hsp.
  { rewrite Hout. apply split_collapse. }
  repeat split.
  - intros i c1 c2 H1 H2 [S1 S2].
    exact (space_run_free_get out false i c1 c2 Hor H1 H2 S1 S2).
  - intros c. by apply first_is_space_get.
  - intros c. by apply last_is_space_get.
  - intros i c. by apply only_plain_spaces_get.
  - done.
  - rewrite <- Hsp, join_split_normal by done. symmetry. by apply lstrip_id.
Qed.

Lemma main_content_first_of soup :
  main_content soup = first_of root_selectors soup.
Proof.
  unfold main_content, root_selectors, first_of, div_with_class.
  rewrite !find_first_match.
  by repeat match goal with
            | |- context [first_match ?p soup] =>
                destruct (first_match p soup); simpl; try done
            end.
Qed.

Lemma first_of_in selectors soup :
  first_of selectors soup = soup \/ In (first_of selectors soup) (descendants soup).
Proof.
  induction selectors as [|p rest IH]; simpl; [by left|].
  destruct (first_match p soup) as [t|] eqn:E; [|done].
  right. by apply first_match_in in E as [? _].
Qed.

(** C1, as the code has it: the root is chosen in the document that is
    left once the script, style, nav, header and footer elements are gone,
    by the first of these that exists there: the first main element, the
    first article element, the first div element with class content, the
    first div element with class documentation, the first body element,
    else the whole document.  The root is the document or one node of it,
    and the returned text is the text of that root alone. *)
Theorem extract_text_content_root (html_content : string) :
  let soup := remove_unwanted (document (html_parser html_content)) in
  let root := first_of root_selectors soup in
  (root = soup \/ In root (descendants soup))
  /\ extract_text_content html_parser html_content =
     Str.re_sub_spaces (get_text " " root).
Proof.
  intros soup root. split; [apply first_of_in|].
  unfold extract_text_content. by rewrite main_content_first_of.
Qed.

(** C7: every word of the returned text is a word of a string of the
    document that lies outside all script, style, nav, header and footer
    elements; and two documents that differ only inside such elements give
    the same text. *)
Theorem extract_text_content_skips_unwanted (html_content : string) :
  (forall w,
     In w (Str.split (extract_text_content html_parser html_content)) ->
     exists s, In s (flat_map visible_strings (html_parser html_content))
               /\ In w (Str.split s))
  /\ (forall html_content',
        Forall2 agree_outside (html_parser html_content)
                              (html_parser html_content') ->
        extract_text_content html_parser html_content' =
        extract_text_content html_parser html_content).
Proof.
  split.
  - intros w Hw. unfold extract_text_content, Str.re_sub_spaces in Hw.
    rewrite split_collapse, main_content_first_of in Hw.
    set (soup := remove_unwanted (document (html_parser html_content))) in *.
    apply split_join_in in Hw as (piece & Hp & Hw).
    apply in_flat_map in Hp as (n & Hn & Hp).
    assert (In n (descendants soup)) as Hn'.
    { destruct (first_of_in root_selectors soup) as [E|E].
      - by rewrite E in Hn.
      - by apply (descendants_trans _ _ _ E). }
    destruct n as [k s|]; [|done]. simpl in Hp.
    destruct (interesting k) eqn:Ek; [|done].
    destruct (Str.is_empty (Str.strip s)); [done|].
    destruct Hp as [<-|[]]. rewrite split_strip in Hw.
    exists s. split; [|done].
    unfold soup, descendants in Hn'. simpl in Hn'.
    apply in_flat_map in Hn' as (c & Hc & Hn').
    apply in_flat_map in Hc as (d & Hd & Hc).
    apply in_flat_map. exists d. split; [done|].
    apply (decompose_all_visible d k s); [|done].
    apply in_flat_map. eauto.
  - intros html_content' H. unfold extract_text_content.
    do 3 f_equal. unfold document, remove_unwanted. f_equal.
    induction H as [|c c' cs cs' Hc _ IH]; [done|].
    cbn [flat_map]. by rewrite (agree_outside_decompose _ _ Hc), IH.
Qed.

End ExtractorFacts.

(** C1 as the claim words it fails: a section element of class content is
    not chosen as the root, the body is. *)
Lemma extract_text_content_claimed_counterexample :
  let html_parser := fun _ : string =>
    [ Tag "body" []
        [ Tag "section" ["content"] [Text NavigableString "Guide"];
          Tag "p" [] [Text NavigableString "Other"] ] ] in
  let html :=
    "<body><section class=content>Guide</section><p>Other</p></body>" in
  extract_text_content html_parser html = "Guide Other"
  /\ Claimed.extract_text_content html_parser html = "Guide"
  /\ extract_text_content html_parser html <>
     Claimed.extract_text_content html_parser html.
Proof. by vm_compute. Qed.

(** ** The ranker *)

Lemma filter_bool_cons {A} (f : A -> bool) (x : A) (l : list A) :
  filter (fun y => f y) (x :: l) =
  if f x then x :: filter (fun y => f y) l else filter (fun y => f y) l.
Proof. rewrite filter_cons. by destruct (f x). Qed.

Lemma filter_bool_map {A B} (f : B -> bool) (g : A -> B) (l : list A) :
  filter (fun y => f y) (map g l) = map g (filter (fun x => f (g x)) l).
Proof.
  induction l as [|x l IH]; [done|].
  cbn [map]. rewrite !filter_bool_cons, IH. by destruct (f (g x)).
Qed.

Lemma filter_bool_ext {A} (f g : A -> bool) (l : list A) :
  (forall x, f x = g x) ->
  filter (fun y => f y) l = filter (fun y => g y) l.
Proof.
  intros H. induction l as [|x l IH]; [done|].
  by rewrite !filter_bool_cons, IH, H.
Qed.

Section Sorting.

Context {A : Type}.
Implicit Types (x y : A * nat) (l : list (A * nat)) (k m : nat).

Lemma with_score_cons k x l :
  with_score k (x :: l) =
  if (snd x =? k)%nat then x :: with_score k l else with_score k l.
Proof. apply (filter_bool_cons (fun p : A * nat => snd p =? k)%nat). Qed.

Lemma with_score_app k l1 l2 :
  with_score k (l1 ++ l2) = with_score k l1 ++ with_score k l2.
Proof. apply filter_app. Qed.

(** Insertion keeps every group of equal scores in order, with the new
    element in front of its own group. *)
Lemma insert_desc_with_score k x l :
  with_score k (insert_desc x l) = with_score k (x :: l).
Proof.
  induction l as [|y l IH]; [done|].
  cbn [insert_desc]. destruct (snd x <? snd y)%nat eqn:E; [|done].
  apply Nat.ltb_lt in E.
  rewrite with_score_cons, IH, !with_score_cons.
  destruct (snd y =? k)%nat eqn:Ey, (snd x =? k)%nat eqn:Ex; try done.
  apply Nat.eqb_eq in Ey, Ex. lia.
Qed.

Lemma sort_desc_with_score k l : with_score k (sort_desc l) = with_score k l.
Proof.
  induction l as [|x l IH]; [done|].
  cbn [sort_desc]. by rewrite insert_desc_with_score, !with_score_cons, IH.
Qed.

Lemma insert_desc_Forall (P : A * nat -> Prop) x l :
  P x -> Forall P l -> Forall P (insert_desc x l).
Proof.
  intros Hx Hl. induction Hl as [|y l Hy Hl IH]; cbn [insert_desc].
  - by constructor.
  - destruct (snd x <? snd y)%nat; by repeat constructor.
Qed.

Lemma insert_desc_descending x l :
  descending l -> descending (insert_desc x l).
Proof.
  induction l as [|y l IH]; [done|].
  intros [Hy Hl]. cbn [insert_desc].
  destruct (snd x <? snd y)%nat eqn:E.
  - apply Nat.ltb_lt in E. split; [|auto].
    apply insert_desc_Forall; [lia|done].
  - apply Nat.ltb_ge in E. split; [|done].
    constructor; [done|].
    eapply Forall_impl; [exact Hy|]. simpl. intros; lia.
Qed.

Lemma sort_desc_descending l : descending (sort_desc l).
Proof.
  induction l as [|x l IH]; [done|]. by apply insert_desc_descending.
Qed.

Lemma with_score_above k x l :
  Forall (fun y => snd y <= snd x) l -> snd x < k -> with_score k (x :: l) = [].
Proof.
  intros Hl Hk. rewrite with_score_cons.
  destruct (snd x =? k)%nat eqn:E; [apply Nat.eqb_eq in E; lia|].
  clear E. induction Hl as [|y l Hy _ IH]; [done|].
  rewrite with_score_cons.
  destruct (snd y =? k)%nat eqn:E; [apply Nat.eqb_eq in E; lia|done].
Qed.

(** A descending list is determined by its groups of equal scores. *)
Lemma descending_unique l1 : forall l2,
  descending l1 -> descending l2 ->
  (forall k, with_score k l1 = with_score k l2) -> l1 = l2.
Proof.
  induction l1 as [|x l1 IH]; intros [|y l2] H1 H2 H.
  - done.
  - specialize (H (snd y)). rewrite with_score_cons, Nat.eqb_refl in H. done.
  - specialize (H (snd x)). rewrite with_score_cons, Nat.eqb_refl in H. done.
  - destruct H1 as [Hx H1], H2 as [Hy H2].
    assert (snd x = snd y) as Exy.
    { destruct (Nat.lt_trichotomy (snd x) (snd y)) as [Hlt|[Heq|Hgt]]; [|done|].
      - pose proof (H (snd y)) as Hk.
        rewrite (with_score_above (snd y) x l1 Hx Hlt) in Hk.
        by rewrite with_score_cons, Nat.eqb_refl in Hk.
      - pose proof (H (snd x)) as Hk.
        rewrite (with_score_above (snd x) y l2 Hy Hgt) in Hk.
        by rewrite with_score_cons, Nat.eqb_refl in Hk. }
    pose proof (H (snd x)) as Hk.
    rewrite !with_score_cons, <- Exy, Nat.eqb_refl in Hk.
    injection Hk as -> Hk. f_equal. apply IH; [done..|].
    intros k. specialize (H k). rewrite !with_score_cons in H.
    destruct (snd y =? k)%nat eqn:E; [|done].
    apply Nat.eqb_eq in E. by subst k.
Qed.

Lemma with_score_with_score k m l :
  with_score k (with_score m l) = if (k =? m)%nat then with_score m l else [].
Proof.
  induction l as [|x l IH]; [by destruct (k =? m)%nat|].
  rewrite (with_score_cons m).
  destruct (snd x =? m)%nat eqn:Em; [|done].
  rewrite with_score_cons, IH. apply Nat.eqb_eq in Em. rewrite Em.
  rewrite (Nat.eqb_sym m k). by destruct (k =? m)%nat.
Qed.

Lemma by_score_from_with_score k m l :
  with_score k (Reference.by_score_from m l) =
  if (k <=? m)%nat then with_score k l else [].
Proof.
  induction m as [|m IH]; cbn [Reference.by_score_from].
  - fold (with_score 0 l). rewrite with_score_app, with_score_with_score.
    destruct k; [by rewrite app_nil_r|done].
  - fold (with_score (S m) l).
    rewrite with_score_app, with_score_with_score, IH.
    destruct (k =? S m)%nat eqn:E1.
    + apply Nat.eqb_eq in E1 as ->. rewrite Nat.leb_refl.
      rewrite (proj2 (Nat.leb_gt (S m) m)) by lia. by rewrite app_nil_r.
    + apply Nat.eqb_neq in E1. simpl app.
      destruct (k <=? m)%nat eqn:E2.
      * apply Nat.leb_le in E2. by rewrite (proj2 (Nat.leb_le k (S m))) by lia.
      * apply Nat.leb_gt in E2. by rewrite (proj2 (Nat.leb_gt k (S m))) by lia.
Qed.

Lemma with_score_Forall k l : Forall (fun y => snd y = k) (with_score k l).
Proof.
  induction l as [|x l IH]; [constructor|].
  rewrite with_score_cons. destruct (snd x =? k)%nat eqn:E; [|done].
  apply Nat.eqb_eq in E. by constructor.
Qed.

Lemma by_score_from_bound m l :
  Forall (fun y => snd y <= m) (Reference.by_score_from m l).
Proof.
  induction m as [|m IH]; cbn [Reference.by_score_from].
  - fold (with_score 0 l). apply Forall_app. split; [|constructor].
    eapply Forall_impl; [apply with_score_Forall|]. simpl; intros; lia.
  - fold (with_score (S m) l). apply Forall_app. split.
    + eapply Forall_impl; [apply with_score_Forall|]. simpl; intros; lia.
    + eapply Forall_impl; [apply IH|]. simpl; intros; lia.
Qed.

Lemma descending_app l1 l2 k :
  Forall (fun y => snd y = k) l1 -> Forall (fun y => snd y <= k) l2 ->
  descending l2 -> descending (l1 ++ l2).
Proof.
  intros H1 H2 Hd. induction H1 as [|x l1 Hx H1 IH]; [done|].
  simpl. split; [|done]. apply Forall_app. split.
  - eapply Forall_impl; [exact H1|]. simpl; intros; lia.
  - eapply Forall_impl; [exact H2|]. simpl; intros; lia.
Qed.

Lemma by_score_from_descending m l : descending (Reference.by_score_from m l).
Proof.
  induction m as [|m IH]; cbn [Reference.by_score_from].
  - fold (with_score 0 l). apply (descending_app _ _ 0); [|constructor|done].
    apply with_score_Forall.
  - fold (with_score (S m) l). apply (descending_app _ _ (S m)); [| |done].
    + apply with_score_Forall.
    + eapply Forall_impl; [apply by_score_from_bound|]. simpl; intros; lia.
Qed.

Lemma with_score_beyond k l :
  foldr Nat.max 0 (map snd l) < k -> with_score k l = [].
Proof.
  induction l as [|x l IH]; [done|].
  cbn [map foldr]. intros H. rewrite with_score_cons.
  destruct (snd x =? k)%nat eqn:E; [apply Nat.eqb_eq in E; lia|].
  apply IH. lia.
Qed.

(** The sort of the program is the stable descending sort of the
    specification. *)
Lemma sort_desc_stable l : sort_desc l = Reference.stable_sort_desc l.
Proof.
  apply descending_unique.
  - apply sort_desc_descending.
  - apply by_score_from_descending.
  - intros k. unfold Reference.stable_sort_desc.
    rewrite sort_desc_with_score, by_score_from_with_score.
    destruct (k <=? foldr Nat.max 0 (map snd l))%nat eqn:E; [done|].
    apply Nat.leb_gt in E. by apply with_score_beyond.
Qed.

End Sorting.

Lemma isspace_lower_char c : Str.isspace (Str.lower_char c) = Str.isspace c.
Proof. by destruct c as [[] [] [] [] [] [] [] []]. Qed.

Lemma starts_word_lower s : Str.starts_word (Str.lower s) = Str.starts_word s.
Proof. destruct s as [|c s]; [done|]. simpl. by rewrite isspace_lower_char. Qed.

(** Lowering and then splitting gives the lowered words. *)
Lemma split_lower s : Str.split (Str.lower s) = map Str.lower (Str.split s).
Proof.
  induction s as [|c s IH]; [done|].
  simpl. rewrite isspace_lower_char, starts_word_lower, IH.
  destruct (Str.isspace c); [done|].
  destruct (Str.starts_word s); [|done]. by destruct (Str.split s).
Qed.

(** The loop that collects the scored sentences. *)
Lemma collect_scored (terms : list string) (sentences : list string) :
  forall acc,
  fold_left
    (fun relevant_sections sentence =>
       let score := score terms sentence in
       if (0 <? score)%nat
       then relevant_sections ++ [(sentence, score)]
       else relevant_sections)
    sentences acc
  = acc ++ filter (fun p => negb (snd p =? 0)%nat)
                  (map (fun t => (t, score terms t)) sentences).
Proof.
  induction sentences as [|t sentences IH]; intros acc.
  - by rewrite app_nil_r.
  - cbn [fold_left map]. rewrite IH, filter_bool_cons. cbn [snd].
    destruct (score terms t) as [|n]; [done|]. simpl.
    by rewrite <- app_assoc.
Qed.

(** C2: the ranker of the program returns what the reference ranker of the
    specification returns: split on the full stop, trim, drop the pieces
    that are empty or no longer than 20 characters, score each piece by the
    occurrences of the lowered query terms in the lowered piece, drop the
    pieces with score 0, sort by descending score with ties in the order of
    first encounter, keep the first five pieces without their scores. *)
Theorem find_relevant_sections_reference (content query : string) :
  find_relevant_sections content query =
  Reference.find_relevant_sections content query.
Proof.
  unfold find_relevant_sections, Reference.find_relevant_sections.
  rewrite collect_scored, app_nil_l, sort_desc_stable, split_lower.
  rewrite (filter_bool_map
             (fun t => negb (Str.is_empty t) && negb (String.length t <=? 20)%nat)
             Str.strip).
  rewrite (filter_bool_ext long_enough
             (fun x => negb (Str.is_empty (Str.strip x))
                       && negb (String.length (Str.strip x) <=? 20)%nat)).
  - done.
  - intros s. unfold long_enough. by rewrite Nat.ltb_antisym.
Qed.

(** The words of a query. *)
Lemma split_spaces s :
  forallb Str.isspace (list_ascii_of_string s) = true -> Str.split s = [].
Proof.
  induction s as [|c s IH]; [done|]. simpl.
  intros H. apply andb_true_iff in H as [-> H]. auto.
Qed.

Lemma forallb_isspace_lower s :
  forallb Str.isspace (list_ascii_of_string (Str.lower s)) =
  forallb Str.isspace (list_ascii_of_string s).
Proof.
  induction s as [|c s IH]; [done|]. simpl. by rewrite isspace_lower_char, IH.
Qed.

(** A query without words finds nothing. *)
Lemma find_relevant_sections_blank content query :
  forallb Str.isspace (list_ascii_of_string query) = true ->
  find_relevant_sections content query = [].
Proof.
  intros H. unfold find_relevant_sections.
  rewrite split_spaces by (by rewrite forallb_isspace_lower).
  rewrite collect_scored, app_nil_l.
  induction (map Str.strip _) as [|t l IH]; [done|].
  cbn [map]. by rewrite filter_bool_cons.
Qed.

(** ** The tools *)

Section ServerFacts.

Variable html_parser : string -> list node.
Variable parser_rejects : string -> option string.
Variable network : nat -> string -> reply.

Lemma fetch_documentation_unknown source_name st :
  assoc source_name DOC_SOURCES = None ->
  fetch_documentation html_parser parser_rejects network source_name st =
  (Return ("Unknown source: " +:+ source_name), st).
Proof.
  intros H. unfold fetch_documentation, in_sources. by rewrite H.
Qed.

(** A fetch of a registered source issues one request and returns a text,
    whatever the network answers. *)
Lemma fetch_documentation_known source_name url st :
  assoc source_name DOC_SOURCES = Some url ->
  exists st',
    fetch_documentation html_parser parser_rejects network source_name st =
    (Return (fetched_text html_parser parser_rejects url (network (length (requests st)) url)), st')
    /\ doc_cache st' = doc_cache st
    /\ requests st' = requests st ++ [url].
Proof.
  intros H.
  unfold fetch_documentation, in_sources, sources_get. rewrite H.
  unfold bind, try_except, get_session, session_get, fetched_text, ret. simpl.
  destruct (network (length (requests st)) url) as [msg|status text]; simpl.
  - eauto.
  - destruct (status =? 200)%Z; [|eauto].
    destruct text as [html|msg]; simpl; [|eauto].
    unfold call_extract_text_content.
    destruct (parser_rejects html); simpl; eauto.
Qed.

Lemma query_source_skip query results source_name st :
  assoc source_name DOC_SOURCES = None ->
  query_source html_parser parser_rejects network query results source_name st =
  (Return results, st).
Proof. intros H. unfold query_source, in_sources. by rewrite H. Qed.

(** A source that is cached is answered from the cache: the state does not
    change. *)
Lemma query_source_hit query results source_name url content st :
  assoc source_name DOC_SOURCES = Some url ->
  doc_cache st !! source_name = Some content ->
  query_source html_parser parser_rejects network query results source_name st =
  (Return (results ++ entry source_name url (find_relevant_sections content query)),
   st).
Proof.
  intros H Hc. unfold query_source, in_sources, sources_get. rewrite H.
  unfold bind, cache_mem, cache_get, ret. simpl. rewrite Hc.
  rewrite bool_decide_eq_true_2 by eauto. simpl. rewrite Hc.
  destruct (find_relevant_sections content query); simpl; [|done].
  by rewrite app_nil_r.
Qed.

(** A registered source that is not cached is fetched, once, and what the
    fetch returns is stored. *)
Lemma query_source_miss query results source_name url st :
  assoc source_name DOC_SOURCES = Some url ->
  doc_cache st !! source_name = None ->
  let content :=
    fetched_text html_parser parser_rejects url (network (length (requests st)) url) in
  exists st',
    query_source html_parser parser_rejects network query results source_name st =
    (Return (results ++ entry source_name url (find_relevant_sections content query)),
     st')
    /\ doc_cache st' = <[source_name := content]> (doc_cache st)
    /\ requests st' = requests st ++ [url].
Proof.
  intros H Hc content. subst content.
  unfold query_source, in_sources, sources_get. rewrite H.
  unfold bind at 1. unfold cache_mem. cbn [negb]. rewrite Hc.
  rewrite bool_decide_eq_false_2 by (by intros [? ?]). cbn [negb].
  unfold bind at 1. unfold bind at 1. unfold logger.
  set (st1 := {| doc_cache := doc_cache st; session := session st;
                 requests := requests st; log := _ |}).
  destruct (fetch_documentation_known source_name url st1 H)
    as (st2 & Hf & Hd & Hr).
  unfold bind at 1. rewrite Hf.
  unfold bind, cache_set, ret. cbn [doc_cache requests].
  rewrite Hd, Hr. cbn [doc_cache requests st1].
  destruct (find_relevant_sections _ query) eqn:E; simpl.
  - rewrite app_nil_r. eauto.
  - eauto.
Qed.

Lemma url_of_assoc source_name url :
  assoc source_name DOC_SOURCES = Some url -> url_of source_name = url.
Proof. unfold url_of. by intros ->. Qed.

(** The loop of [crc_doc_query]: it never raises; its results are those
    read off the final cache, behind the results accumulated so far; the
    cache only grows, by the registered sources of the list; one request is
    issued per source that had to be fetched. *)
Lemma for_each_query_source query sources : forall acc st,
  exists st',
    for_each (query_source html_parser parser_rejects network query) sources acc st =
    (Return (acc ++ results_from query (doc_cache st') sources), st')
    /\ doc_cache st ⊆ doc_cache st'
    /\ dom (doc_cache st') =
       list_to_set (filter (fun s => in_sources s) sources) ∪ dom (doc_cache st)
    /\ requests st' =
       requests st ++ map url_of (misses sources (dom (doc_cache st)))
    /\ (misses sources (dom (doc_cache st)) = [] -> st' = st).
Proof.
  induction sources as [|s l IH]; intros acc st.
  - exists st. cbn. rewrite !app_nil_r. split_and!; try done. set_solver.
  - cbn [for_each]. unfold bind at 1. unfold results_from. cbn [flat_map misses].
    fold (results_from query). rewrite filter_bool_cons.
    destruct (assoc s DOC_SOURCES) as [url|] eqn:Hs.
    + assert (in_sources s = true) as -> by (unfold in_sources; by rewrite Hs).
      destruct (doc_cache st !! s) as [content|] eqn:Hc.
      * rewrite (query_source_hit _ _ _ _ _ _ Hs Hc).
        destruct (IH (acc ++ entry s url (find_relevant_sections content query)) st)
          as (st' & Hrun & Hsub & Hdom & Hreq & Hid).
        exists st'. rewrite Hrun.
        rewrite (lookup_weaken _ _ _ _ Hc Hsub), <- app_assoc.
        assert (s ∈ dom (doc_cache st)) as Hin by (apply elem_of_dom; eauto).
        rewrite bool_decide_eq_false_2 by (by intros ?). cbn [andb].
        split_and!; try done.
        rewrite Hdom, list_to_set_cons. set_solver.
      * destruct (query_source_miss query acc s url st Hs Hc)
          as (st1 & Hq & Hd1 & Hr1).
        rewrite Hq.
        destruct (IH (acc ++ entry s url (find_relevant_sections
                   (fetched_text html_parser parser_rejects url
                      (network (length (requests st)) url)) query)) st1)
          as (st' & Hrun & Hsub & Hdom & Hreq & Hid).
        exists st'. rewrite Hrun.
        assert (doc_cache st1 !! s =
                Some (fetched_text html_parser parser_rejects url
                        (network (length (requests st)) url))) as Hc1.
        { rewrite Hd1. apply lookup_insert_eq. }
        rewrite (lookup_weaken _ _ _ _ Hc1 Hsub), <- app_assoc.
        assert (s ∉ dom (doc_cache st)) as Hnin by (by apply not_elem_of_dom).
        rewrite bool_decide_eq_true_2 by done. cbn [andb map].
        rewrite (url_of_assoc _ _ Hs).
        assert (dom (doc_cache st1) = {[s]} ∪ dom (doc_cache st)) as Hdom1.
        { rewrite Hd1. apply dom_insert_L. }
        split_and!; [done| | | |done].
        -- etrans; [|exact Hsub]. rewrite Hd1. by apply insert_subseteq.
        -- rewrite Hdom, Hdom1, list_to_set_cons. set_solver.
        -- by rewrite Hreq, Hr1, Hdom1, <- app_assoc.
    + assert (in_sources s = false) as -> by (unfold in_sources; by rewrite Hs).
      rewrite (query_source_skip _ _ _ _ Hs). cbn [andb app].
      destruct (IH acc st) as (st' & Hrun & Hsub & Hdom & Hreq & Hid).
      exists st'. by rewrite Hrun.
Qed.

Lemma for_each_skip query sources : forall acc st,
  for_each (query_source html_parser parser_rejects network query) sources acc st =
  for_each (query_source html_parser parser_rejects network query)
           (filter (fun s => in_sources s) sources) acc st.
Proof.
  induction sources as [|s l IH]; intros acc st; [done|].
  rewrite filter_bool_cons. destruct (in_sources s) eqn:E.
  - cbn [for_each]. unfold bind.
    destruct (query_source html_parser parser_rejects network query acc s st) as [[acc'|e] st'];
      [apply IH|done].
  - cbn [for_each]. unfold bind. rewrite query_source_skip; [apply IH|].
    unfold in_sources in E. by destruct (assoc s DOC_SOURCES).
Qed.

Lemma results_from_sources query cache sources :
  map source (results_from query cache sources) =
  filter (fun s => in_sources s && has_sections query cache s) sources.
Proof.
  induction sources as [|s l IH]; [done|].
  unfold results_from. cbn [flat_map]. fold (results_from query cache l).
  rewrite map_app, IH, filter_bool_cons. unfold in_sources, has_sections.
  destruct (assoc s DOC_SOURCES) as [url|]; [|done].
  destruct (cache !! s) as [content|]; [|done].
  by destruct (find_relevant_sections content query).
Qed.

Lemma sources_keys_targets : sources_keys = targets_of None.
Proof. reflexivity. Qed.

(** A query that is not empty runs the loop over its targets. *)
Lemma crc_doc_query_run query sources st :
  Str.is_empty query = false ->
  exists st',
    crc_doc_query html_parser parser_rejects network query sources st =
    (Return (format_response query
               (results_from query (doc_cache st') (targets_of sources))), st')
    /\ doc_cache st ⊆ doc_cache st'
    /\ dom (doc_cache st') =
       list_to_set (filter (fun s => in_sources s) (targets_of sources))
       ∪ dom (doc_cache st)
    /\ requests st' =
       requests st ++ map url_of (misses (targets_of sources) (dom (doc_cache st)))
    /\ (misses (targets_of sources) (dom (doc_cache st)) = [] -> st' = st).
Proof.
  intros Hq. unfold crc_doc_query. rewrite Hq.
  destruct (for_each_query_source query (targets_of sources) [] st)
    as (st' & Hrun & Hrest).
  exists st'. split; [|exact Hrest].
  unfold bind. destruct sources as [l|]; cbn [targets_of] in *.
  - by rewrite Hrun.
  - rewrite sources_keys_targets. cbn [targets_of]. by rewrite Hrun.
Qed.

(** C3, as the code has it: [fetch_documentation] never raises.  For a
    name that is not registered it returns the unknown-source message and
    leaves the state alone, so that no request is issued; for a registered
    name it issues one request and returns the failed-to-fetch message for
    a status other than 200, the extracted text of the body for a status
    200 whose body is read and parsed, and the error-fetching message, with
    the text of the exception, for every exception met inside the try
    block: a request without response, a body that cannot be read, and a
    body that the parser rejects. *)
Theorem fetch_documentation_never_raises (source_name : string) (st : state) :
  exists text st',
    fetch_documentation html_parser parser_rejects network source_name st =
    (Return text, st')
    /\ match assoc source_name DOC_SOURCES with
       | None => text = "Unknown source: " +:+ source_name /\ st' = st
       | Some url =>
           requests st' = requests st ++ [url]
           /\ match network (length (requests st)) url with
              | NoResponse msg =>
                  text = "Error fetching " +:+ url +:+ ": " +:+ msg
              | Response status body =>
                  if (status =? 200)%Z
                  then match body with
                       | BodyFails msg =>
                           text = "Error fetching " +:+ url +:+ ": " +:+ msg
                       | BodyText html =>
                           match parser_rejects html with
                           | Some msg =>
                               text = "Error fetching " +:+ url +:+ ": " +:+ msg
                           | None =>
                               text = extract_text_content html_parser html
                           end
                       end
                  else text = "Failed to fetch " +:+ url +:+ " (Status: "
                              +:+ Str.of_Z status +:+ ")"
              end
       end.
Proof.
  destruct (assoc source_name DOC_SOURCES) as [url|] eqn:H.
  - destruct (fetch_documentation_known source_name url st H)
      as (st' & Hf & _ & Hr).
    eexists _, st'. split; [exact Hf|]. split; [exact Hr|].
    unfold fetched_text.
    destruct (network (length (requests st)) url) as [msg|status body];
      [done|].
    destruct (status =? 200)%Z; [|done].
    destruct body as [html|msg]; [|done]. by destruct (parser_rejects html).
  - eexists _, st. split; [by apply fetch_documentation_unknown|done].
Qed.

(** C6: the empty query is answered at once, whatever the sources: the
    state is untouched, so that no cache entry is read or written, nothing
    is fetched and nothing is ranked. *)
Theorem crc_doc_query_empty (sources : option (list string)) (st : state) :
  crc_doc_query html_parser parser_rejects network "" sources st =
  (Return "Please provide a query.", st).
Proof. reflexivity. Qed.

(** C5: a query that is not empty runs through its targets in order.  Its
    results are the blocks of the registered targets whose cached text has
    a ranked fragment, in the order of the target list; unregistered
    targets change neither the answer nor the state; without any result,
    and so when no target is registered, the answer is the
    no-relevant-information message for the query. *)
Theorem crc_doc_query_sources (query : string) (sources : option (list string))
    (st : state) :
  Str.is_empty query = false ->
  exists st' results,
    crc_doc_query html_parser parser_rejects network query sources st =
    (Return (format_response query results), st')
    /\ results = results_from query (doc_cache st') (targets_of sources)
    /\ map source results =
       filter (fun s => in_sources s && has_sections query (doc_cache st') s)
              (targets_of sources)
    /\ (results = [] -> format_response query results = no_results query)
    /\ crc_doc_query html_parser parser_rejects network query sources st =
       crc_doc_query html_parser parser_rejects network query
         (Some (filter (fun s => in_sources s) (targets_of sources))) st
    /\ (filter (fun s => in_sources s) (targets_of sources) = [] ->
        crc_doc_query html_parser parser_rejects network query sources st =
        (Return (no_results query), st)).
Proof.
  intros Hq.
  destruct (crc_doc_query_run query sources st Hq) as (st' & Hrun & _).
  exists st', (results_from query (doc_cache st') (targets_of sources)).
  assert (crc_doc_query html_parser parser_rejects network query sources st =
          crc_doc_query html_parser parser_rejects network query
            (Some (filter (fun s => in_sources s) (targets_of sources))) st)
    as Hskip.
  { unfold crc_doc_query. rewrite Hq. unfold bind.
    replace (match sources with Some l => l | None => sources_keys end)
      with (targets_of sources) by (by destruct sources).
    by rewrite for_each_skip. }
  split_and!; [done|done|apply results_from_sources| |done|].
  - by intros ->.
  - intros Hnone. rewrite Hskip, Hnone. unfold crc_doc_query. by rewrite Hq.
Qed.

(** A query for one registered source. *)
Lemma crc_doc_query_single query source_name url st :
  assoc source_name DOC_SOURCES = Some url ->
  Str.is_empty query = false ->
  let stored := stored_text html_parser parser_rejects network source_name url st in
  exists st',
    crc_doc_query html_parser parser_rejects network query (Some [source_name]) st =
    (Return (format_response query
               (entry source_name url (find_relevant_sections stored query))),
     st')
    /\ doc_cache st' = <[source_name := stored]> (doc_cache st)
    /\ requests st' =
       requests st ++
       match doc_cache st !! source_name with Some _ => [] | None => [url] end
    /\ (is_Some (doc_cache st !! source_name) -> st' = st).
Proof.
  intros Hs Hq stored. subst stored. unfold stored_text, crc_doc_query.
  rewrite Hq. cbn [for_each]. unfold bind, ret.
  destruct (doc_cache st !! source_name) as [content|] eqn:Hc.
  - rewrite (query_source_hit _ _ _ _ _ _ Hs Hc). exists st.
    rewrite app_nil_l, app_nil_r. split_and!; try done.
    symmetry. by apply insert_id.
  - destruct (query_source_miss query [] source_name url st Hs Hc)
      as (st' & Hrun & Hd & Hr).
    rewrite Hrun. exists st'. rewrite app_nil_l. by split_and!.
Qed.


(** C9: [clear_cache] returns its confirmation and empties the cache,
    whatever the state, and touches nothing else; the next query for a
    registered source then fetches it again, with one request, and stores
    what the fetch returns. *)
Theorem clear_cache_refetches (query source_name url : string) (st : state) :
  assoc source_name DOC_SOURCES = Some url ->
  Str.is_empty query = false ->
  let st1 := snd (clear_cache st) in
  clear_cache st =
    (Return "Documentation cache cleared. Fresh content will be fetched on next query.",
     {| doc_cache := ∅; session := session st;
        requests := requests st; log := log st |})
  /\ (forall s, doc_cache st1 !! s = None)
  /\ let st2 :=
       snd (crc_doc_query html_parser parser_rejects network query (Some [source_name]) st1) in
     requests st2 = requests st ++ [url]
     /\ doc_cache st2 !! source_name =
        Some (fetched_text html_parser parser_rejects url (network (length (requests st)) url)).
Proof.
  intros Hs Hq st1. split; [done|]. split; [intros s; apply lookup_empty|].
  destruct (crc_doc_query_single query source_name url st1 Hs Hq)
    as (st' & Hrun & Hd & Hr & _).
  rewrite Hrun. cbn [snd]. unfold stored_text in Hd.
  assert (doc_cache st1 !! source_name = None) as Hc by apply lookup_empty.
  rewrite Hc in Hr, Hd. split; [done|].
  rewrite Hd. apply lookup_insert_eq.
Qed.

Lemma results_from_blank query cache sources :
  forallb Str.isspace (list_ascii_of_string query) = true ->
  results_from query cache sources = [].
Proof.
  intros Hb. unfold results_from. induction sources as [|s l IH]; [done|].
  cbn [flat_map]. rewrite IH, app_nil_r.
  destruct (assoc s DOC_SOURCES); [|done].
  destruct (cache !! s); [|done].
  by rewrite find_relevant_sections_blank.
Qed.

(** C10: a query that is not empty and made of white space only has no
    terms, so that the ranker finds nothing in any text; the query still
    goes through its targets, fetching and caching every registered one
    that is not cached, and answers with the no-relevant-information
    message for the query as it was given. *)
Theorem crc_doc_query_blank (query : string) (sources : option (list string))
    (st : state) :
  Str.is_empty query = false ->
  forallb Str.isspace (list_ascii_of_string query) = true ->
  Str.split (Str.lower query) = []
  /\ (forall content, find_relevant_sections content query = [])
  /\ exists st',
       crc_doc_query html_parser parser_rejects network query sources st =
       (Return ("No relevant information found for: '" +:+ query +:+ "'"), st')
       /\ requests st' =
          requests st ++
          map url_of (misses (targets_of sources) (dom (doc_cache st)))
       /\ dom (doc_cache st') =
          list_to_set (filter (fun s => in_sources s) (targets_of sources))
          ∪ dom (doc_cache st).
Proof.
  intros Hq Hb. split; [|split].
  - apply split_spaces. by rewrite forallb_isspace_lower.
  - intros content. by apply find_relevant_sections_blank.
  - destruct (crc_doc_query_run query sources st Hq)
      as (st' & Hrun & _ & Hdom & Hreq & _).
    exists st'. split_and!; [|done|done].
    by rewrite Hrun, results_from_blank.
Qed.

End ServerFacts.

(** C3 as the claim words it fails: a response with status 200 whose body
    is read, so that nothing failed in the transport, is answered with the
    error-fetching message, and not with an extracted text, when the
    parser rejects the body; the error is logged. *)
Lemma fetch_documentation_claimed_counterexample :
  let network := fun (_ : nat) (_ : string) =>
    Response 200 (BodyText "<p>Docs</p><![a]>") in
  let run := fetch_documentation plain_parser strict_parser network "crc" fresh in
  is_page (network 0 "https://crc.dev/docs") = true
  /\ fst run =
     Return "Error fetching https://crc.dev/docs: AssertionError: unknown status keyword 'a' in marked section"
  /\ log (snd run) =
     [(ERROR, "Error fetching https://crc.dev/docs: AssertionError: unknown status keyword 'a' in marked section")]
  /\ fst run <>
     Return (ClaimedFetch.fetched_text "https://crc.dev/docs"
               (network 0 "https://crc.dev/docs")).
Proof. by vm_compute. Qed.

(** ** The theorems at work on the test doubles *)

Lemma crc_doc_query_sources_witness :
  Str.is_empty "vm" = false /\
  exists st' results,
    crc_doc_query plain_parser accepts_all flaky_network "vm" (Some ["nope"; "crc"]) fresh =
    (Return (format_response "vm" results), st')
    /\ results =
       results_from "vm" (doc_cache st') (targets_of (Some ["nope"; "crc"]))
    /\ map source results =
       filter (fun s => in_sources s && has_sections "vm" (doc_cache st') s)
              (targets_of (Some ["nope"; "crc"]))
    /\ (results = [] -> format_response "vm" results = no_results "vm")
    /\ crc_doc_query plain_parser accepts_all flaky_network "vm" (Some ["nope"; "crc"]) fresh =
       crc_doc_query plain_parser accepts_all flaky_network "vm"
         (Some (filter (fun s => in_sources s)
                       (targets_of (Some ["nope"; "crc"])))) fresh
    /\ (filter (fun s => in_sources s) (targets_of (Some ["nope"; "crc"])) = [] ->
        crc_doc_query plain_parser accepts_all flaky_network "vm" (Some ["nope"; "crc"]) fresh =
        (Return (no_results "vm"), fresh)).
Proof.
  split; [reflexivity|].
  apply (crc_doc_query_sources plain_parser accepts_all flaky_network "vm"
           (Some ["nope"; "crc"]) fresh).
  reflexivity.
Defined.


Lemma clear_cache_refetches_witness :
  let st := {| doc_cache := {[ "crc" := "stale text" ]}; session := true;
               requests := ["https://crc.dev/docs"]; log := [] |} in
  assoc "crc" DOC_SOURCES = Some "https://crc.dev/docs" /\
  Str.is_empty "machine" = false /\
  let st1 := snd (clear_cache st) in
  clear_cache st =
    (Return "Documentation cache cleared. Fresh content will be fetched on next query.",
     {| doc_cache := ∅; session := session st;
        requests := requests st; log := log st |})
  /\ (forall s, doc_cache st1 !! s = None)
  /\ let st2 :=
       snd (crc_doc_query plain_parser accepts_all flaky_network "machine" (Some ["crc"]) st1) in
     requests st2 = requests st ++ ["https://crc.dev/docs"]
     /\ doc_cache st2 !! "crc" =
        Some (fetched_text plain_parser accepts_all "https://crc.dev/docs"
                (flaky_network (length (requests st)) "https://crc.dev/docs")).
Proof.
  intros st. split; [reflexivity|]. split; [reflexivity|].
  apply (clear_cache_refetches plain_parser accepts_all flaky_network
           "machine" "crc" "https://crc.dev/docs" st);
    reflexivity.
Defined.

Lemma crc_doc_query_blank_witness :
  Str.is_empty "  " = false /\
  forallb Str.isspace (list_ascii_of_string "  ") = true /\
  Str.split (Str.lower "  ") = []
  /\ (forall content, find_relevant_sections content "  " = [])
  /\ exists st',
       crc_doc_query plain_parser accepts_all flaky_network "  " None fresh =
       (Return ("No relevant information found for: '" +:+ "  " +:+ "'"), st')
       /\ requests st' =
          requests fresh ++
          map url_of (misses (targets_of None) (dom (doc_cache fresh)))
       /\ dom (doc_cache st') =
          list_to_set (filter (fun s => in_sources s) (targets_of None))
          ∪ dom (doc_cache fresh).
Proof.
  split; [reflexivity|]. split; [reflexivity|].
  apply (crc_doc_query_blank plain_parser accepts_all flaky_network "  " None fresh);
    reflexivity.
Defined.

(** ** Worked examples *)

Example count_does_not_overlap : Str.count "abababa" "aba" = 2.
Proof. reflexivity. Qed.

Example split_on_keeps_empty_pieces :
  Str.split_on "." "a.b..c." = ["a"; "b"; ""; "c"; ""].
Proof. reflexivity. Qed.

Example sort_desc_keeps_ties_in_order :
  sort_desc [("a", 1); ("b", 3); ("c", 1); ("d", 3)] =
  [("b", 3); ("d", 3); ("a", 1); ("c", 1)].
Proof. reflexivity. Qed.

(** The second end-to-end scenario of the specification, on the ranker. *)
Example ranker_scenario :
  find_relevant_sections
    "CRC is great. OpenShift Local runs on a VM. Containers are isolated."
    "OpenShift Local VM"
  = ["OpenShift Local runs on a VM"].
Proof. by vm_compute. Qed.

Example extractor_scenario :
  extract_text_content
    (fun _ =>
       [ Tag "html" []
           [ Tag "head" [] [Tag "script" [] [Text OtherString "var x = 1;"]];
             Tag "body" []
               [ Tag "nav" [] [Text NavigableString "Home"];
                 Tag "div" ["page"; "content"]
                   [ Text NavigableString (nl +:+ "  Getting   started ");
                     Text Comment "draft";
                     Tag "p" [] [Text NavigableString "with CRC"] ];
                 Tag "footer" [] [Text NavigableString "Imprint"] ] ] ])
    "<html>...</html>"
  = "Getting started with CRC".
Proof. by vm_compute. Qed.

Example fetch_scenarios :
  let reply_with r := fun (_ : nat) (_ : string) => r in
  fst (fetch_documentation plain_parser accepts_all
         (reply_with (NoResponse "timeout")) "blog" fresh)
  = Return "Unknown source: blog"
  /\ fst (fetch_documentation plain_parser accepts_all
            (reply_with (NoResponse "timeout")) "crc-blog" fresh)
     = Return "Error fetching https://crc.dev/blog: timeout"
  /\ fst (fetch_documentation plain_parser accepts_all
            (reply_with (Response 503 (BodyText "busy"))) "crc-blog" fresh)
     = Return "Failed to fetch https://crc.dev/blog (Status: 503)"
  /\ fst (fetch_documentation plain_parser accepts_all
            (reply_with (Response 200 (BodyText "  Release   notes ")))
            "crc-blog" fresh)
     = Return "Release notes".
Proof. by vm_compute. Qed.

(** * Further properties of the program *)

(** ** The ranker *)

Lemma insert_desc_length {A} (x : A * nat) l :
  length (insert_desc x l) = S (length l).
Proof.
  induction l as [|y l IH]; [done|]. cbn [insert_desc].
  destruct (snd x <? snd y)%nat; simpl; by rewrite ?IH.
Qed.

Lemma sort_desc_length {A} (l : list (A * nat)) :
  length (sort_desc l) = length l.
Proof.
  induction l as [|x l IH]; [done|].
  cbn [sort_desc]. by rewrite insert_desc_length, IH.
Qed.

Lemma insert_desc_In {A} (x y : A * nat) l :
  In y (insert_desc x l) <-> y = x \/ In y l.
Proof.
  induction l as [|z l IH]; [simpl; naive_solver|]. cbn [insert_desc].
  destruct (snd x <? snd z)%nat; simpl; [rewrite IH|]; naive_solver.
Qed.

Lemma sort_desc_In {A} (y : A * nat) l : In y (sort_desc l) <-> In y l.
Proof.
  induction l as [|x l IH]; [done|].
  cbn [sort_desc]. rewrite insert_desc_In, IH. simpl. naive_solver.
Qed.

(** The ranker sorts the qualifying candidates, paired with their scores,
    and keeps five. *)
Lemma find_relevant_sections_sorted content query :
  find_relevant_sections content query =
  map fst (take 5 (sort_desc
    (map (fun t => (t, query_score query t)) (qualifying content query)))).
Proof.
  unfold find_relevant_sections. rewrite collect_scored, app_nil_l.
  do 3 f_equal. unfold qualifying, candidates, query_score.
  rewrite (filter_bool_map (fun p : string * nat => negb (snd p =? 0)%nat)).
  f_equal. apply filter_bool_ext. intros t. cbn [snd].
  by destruct (score (Str.split (Str.lower query)) t).
Qed.

(** X1: the number of fragments returned is the number of qualifying
    candidates, capped at five. *)
Theorem find_relevant_sections_length (content query : string) :
  length (find_relevant_sections content query) =
  Nat.min 5 (length (qualifying content query)).
Proof.
  rewrite find_relevant_sections_sorted.
  by rewrite length_map, length_take, sort_desc_length, length_map.
Qed.

Lemma split_on_nonempty sep s : Str.split_on sep s <> [].
Proof.
  destruct s as [|c s]; [done|]. simpl.
  destruct (Str.split_on sep s); [done|]. by destruct (Ascii.eqb c sep).
Qed.

(** No piece of a split holds the separator. *)
Lemma split_on_no_sep sep s :
  Forall (fun p => ~ In sep (chars p)) (Str.split_on sep s).
Proof.
  induction s as [|c s IH]; [constructor; [by intros []|constructor]|]. simpl.
  destruct (Str.split_on sep s) as [|p ps];
    [constructor; [by intros []|constructor]|].
  inversion IH as [|? ? Hp Hps]; subst.
  destruct (Ascii.eqb c sep) eqn:E.
  - constructor; [by intros []|done].
  - apply Ascii.eqb_neq in E. constructor; [|done].
    intros [->|H]; [done|by apply Hp].
Qed.

Lemma chars_lstrip c s : In c (chars (Str.lstrip s)) -> In c (chars s).
Proof.
  induction s as [|d s IH]; [done|]. simpl.
  destruct (Str.isspace d); [|done]. auto.
Qed.

Lemma chars_rstrip c s : In c (chars (Str.rstrip s)) -> In c (chars s).
Proof.
  induction s as [|d s IH]; [done|]. simpl.
  destruct (Str.is_empty (Str.rstrip s) && Str.isspace d); [done|].
  simpl. intros [->|H]; auto.
Qed.

Lemma chars_strip c s : In c (chars (Str.strip s)) -> In c (chars s).
Proof. intros H. by apply chars_rstrip, chars_lstrip. Qed.

Lemma In_take {A} (x : A) n l : In x (take n l) -> In x l.
Proof.
  intros H. rewrite <- (take_drop n l). apply in_app_iff. by left.
Qed.

Lemma qualifying_In content query t :
  In t (qualifying content query) ->
  (exists p, In p (Str.split_on "." content) /\ long_enough p = true
             /\ t = Str.strip p)
  /\ 0 < query_score query t.
Proof.
  unfold qualifying, candidates. intros H.
  apply list_elem_of_In, list_elem_of_filter in H as [Hs H].
  apply Is_true_true, Nat.ltb_lt in Hs. split; [|done].
  apply list_elem_of_In, in_map_iff in H as (p & <- & H).
  apply list_elem_of_In, list_elem_of_filter in H as [Hl H].
  exists p. split_and!; [by apply list_elem_of_In|by apply Is_true_true|done].
Qed.

Lemma find_relevant_sections_In content query t :
  In t (find_relevant_sections content query) -> In t (qualifying content query).
Proof.
  rewrite find_relevant_sections_sorted. intros H.
  apply in_map_iff in H as ([t' n] & <- & H).
  apply In_take, sort_desc_In, in_map_iff in H as (t'' & [= <- <-] & H). done.
Qed.

(** X2: every fragment returned is the trimmed form of a piece of the
    content between two full stops; it is longer than 20 characters, holds
    no full stop, neither starts nor ends with white space, and has a
    positive score for the query. *)
Theorem find_relevant_sections_fragments (content query : string) :
  Forall
    (fun t =>
       (exists p, In p (Str.split_on "." content) /\ t = Str.strip p)
       /\ 20 < String.length t
       /\ 0 < query_score query t
       /\ ~ In "."%char (chars t)
       /\ first_is_space t = false
       /\ last_is_space t = false)
    (find_relevant_sections content query).
Proof.
  apply Forall_forall. intros t H.
  apply list_elem_of_In, find_relevant_sections_In, qualifying_In in H
    as [(p & Hp & Hl & ->) Hs].
  unfold long_enough in Hl. apply andb_true_iff in Hl as [_ Hl].
  apply Nat.ltb_lt in Hl.
  split_and!; [by exists p|done|done| |apply strip_first|apply strip_last].
  intros Hdot. apply chars_strip in Hdot.
  pose proof (split_on_no_sep "." content) as Hall.
  rewrite Forall_forall in Hall. apply (Hall p); [|done].
  by apply list_elem_of_In.
Qed.

Lemma descending_app_inv {A} (l1 l2 : list (A * nat)) :
  descending (l1 ++ l2) ->
  descending l1
  /\ forall x y, In x l1 -> In y l2 -> snd y <= snd x.
Proof.
  induction l1 as [|z l1 IH]; [done|].
  cbn [app descending]. intros [Hz Hd]. destruct (IH Hd) as [Hd1 Hcross].
  apply Forall_app in Hz as [Hz1 Hz2]. split; [done|].
  intros x y [<-|Hx] Hy; [|by apply Hcross].
  rewrite Forall_forall in Hz2. by apply Hz2, list_elem_of_In.
Qed.

(** X3: along the fragments returned the score never increases, and a
    qualifying candidate that was not returned scores no more than any
    fragment that was. *)
Theorem find_relevant_sections_ranked (content query : string) :
  descending (map (fun t => (t, query_score query t))
                  (find_relevant_sections content query))
  /\ forall c,
       In c (qualifying content query) ->
       In c (find_relevant_sections content query)
       \/ Forall (fun r => query_score query c <= query_score query r)
                 (find_relevant_sections content query).
Proof.
  rewrite find_relevant_sections_sorted.
  set (l := map (fun t => (t, query_score query t)) (qualifying content query)).
  assert (forall p, In p (sort_desc l) -> snd p = query_score query (fst p)) as Hpair.
  { intros p Hp. apply sort_desc_In, in_map_iff in Hp as (t & <- & _). done. }
  pose proof (sort_desc_descending l) as Hd.
  rewrite <- (take_drop 5 (sort_desc l)) in Hd.
  apply descending_app_inv in Hd as [Hd Hcross].
  assert (map (fun t => (t, query_score query t)) (map fst (take 5 (sort_desc l)))
          = take 5 (sort_desc l)) as Hback.
  { rewrite map_map. rewrite <- (map_id (take 5 (sort_desc l))) at 2.
    apply map_ext_in. intros [t n] Hp. apply In_take in Hp.
    apply Hpair in Hp. simpl in *. by subst. }
  split; [by rewrite Hback|].
  intros c Hc.
  assert (In (c, query_score query c) (sort_desc l)) as Hin.
  { apply sort_desc_In, in_map_iff. eauto. }
  rewrite <- (take_drop 5 (sort_desc l)) in Hin.
  apply in_app_iff in Hin as [Hin|Hin].
  - left. apply in_map_iff. by exists (c, query_score query c).
  - right. apply Forall_forall. intros r Hr.
    apply list_elem_of_In, in_map_iff in Hr as (p & <- & Hp).
    rewrite <- (Hpair p) by (by apply In_take in Hp).
    exact (Hcross _ _ Hp Hin).
Qed.

Lemma lower_char_idem c : Str.lower_char (Str.lower_char c) = Str.lower_char c.
Proof. by destruct c as [[] [] [] [] [] [] [] []]. Qed.

Lemma lower_idem s : Str.lower (Str.lower s) = Str.lower s.
Proof.
  induction s as [|c s IH]; [done|]. simpl. by rewrite lower_char_idem, IH.
Qed.

Lemma lower_app a b : Str.lower (a +:+ b) = Str.lower a +:+ Str.lower b.
Proof. induction a as [|c a IH]; [done|]. simpl. by rewrite IH. Qed.

Lemma score_app terms1 terms2 sentence :
  score (terms1 ++ terms2) sentence =
  score terms1 sentence + score terms2 sentence.
Proof.
  unfold score. induction terms1 as [|t terms1 IH]; [done|].
  simpl in *. rewrite IH. lia.
Qed.

(** The ranker sees the query through the scores only. *)
Lemma find_relevant_sections_ext content query1 query2 :
  (forall t, query_score query1 t = query_score query2 t) ->
  find_relevant_sections content query1 = find_relevant_sections content query2.
Proof.
  intros H. rewrite !find_relevant_sections_sorted. unfold qualifying.
  rewrite (filter_bool_ext (fun t => (0 <? query_score query1 t)%nat)
                           (fun t => (0 <? query_score query2 t)%nat))
    by (intros t; by rewrite H).
  do 3 f_equal. apply map_ext. intros t. by rewrite H.
Qed.

(** X4: the ranker does not tell upper case from lower case in the query,
    and the order of the words of the query does not matter. *)
Theorem find_relevant_sections_query_words (content query1 query2 : string) :
  find_relevant_sections content (Str.lower query1) =
  find_relevant_sections content query1
  /\ find_relevant_sections content (query1 +:+ " " +:+ query2) =
     find_relevant_sections content (query2 +:+ " " +:+ query1).
Proof.
  split; apply find_relevant_sections_ext; intros t; unfold query_score.
  - by rewrite lower_idem.
  - rewrite !lower_app.
    change (Str.lower " " +:+ ?x) with (String " " x).
    rewrite !split_app_space, !score_app. lia.
Qed.

(** ** The extractor *)

(** The words of a node: those of its string when [get_text] looks at it. *)
Lemma split_join ps :
  Str.split (Str.join " " ps) = flat_map Str.split ps.
Proof.
  induction ps as [|p ps IH]; [done|].
  destruct ps as [|q ps]; [simpl; by rewrite app_nil_r|].
  rewrite join_cons.
  change (" " +:+ Str.join " " (q :: ps)) with (String " " (Str.join " " (q :: ps))).
  by rewrite split_app_space, IH.
Qed.

Lemma split_stripped_string n :
  flat_map Str.split (stripped_string n) =
  match n with
  | Text k s => if interesting k then Str.split s else []
  | Tag _ _ _ => []
  end.
Proof.
  destruct n as [k s|]; [|done]. simpl.
  destruct (interesting k); [|done]. simpl.
  destruct (Str.is_empty (Str.strip s)) eqn:E; simpl.
  - apply is_empty_true in E. by rewrite <- (split_strip s), E.
  - by rewrite app_nil_r, split_strip.
Qed.

(** X5: the words of the extracted text are the words of the strings
    below the chosen root that [get_text] looks at, all of them, in the
    order of the document. *)
Theorem extract_text_content_words (html_parser : string -> list node)
    (html_content : string) :
  let soup := remove_unwanted (document (html_parser html_content)) in
  Str.split (extract_text_content html_parser html_content) =
  flat_map
    (fun n =>
       match n with
       | Text k s => if interesting k then Str.split s else []
       | Tag _ _ _ => []
       end)
    (descendants (main_content soup)).
Proof.
  intros soup. unfold extract_text_content, Str.re_sub_spaces, get_text.
  rewrite split_collapse, split_join. fold soup.
  induction (descendants (main_content soup)) as [|n l IH]; [done|].
  cbn [flat_map]. by rewrite flat_map_app, split_stripped_string, IH.
Qed.

(** ** The fetcher *)

Section FetcherFacts.

Variable html_parser : string -> list node.
Variable parser_rejects : string -> option string.
Variable network : nat -> string -> reply.

(** The whole effect of a fetch of a registered source. *)
Lemma fetch_documentation_state source_name url st :
  assoc source_name DOC_SOURCES = Some url ->
  let answer := network (length (requests st)) url in
  let text := fetched_text html_parser parser_rejects url answer in
  fetch_documentation html_parser parser_rejects network source_name st =
  (Return text,
   {| doc_cache := doc_cache st; session := true;
      requests := requests st ++ [url];
      log := log st ++ (if fetch_failed parser_rejects answer
                        then [(ERROR, text)] else []) |}).
Proof.
  intros H answer text. subst answer text.
  unfold fetch_documentation, in_sources, sources_get. rewrite H.
  unfold bind, try_except, get_session, session_get, fetched_text, ret, logger.
  cbn [negb fst snd doc_cache session requests log].
  assert ((if session st then session st else true) = true) as ->
    by (by destruct (session st)).
  destruct (network (length (requests st)) url) as [msg|status text];
    cbn [fetch_failed fst snd doc_cache session requests log response_text].
  - done.
  - destruct (status =? 200)%Z eqn:E.
    + destruct text as [html|msg]; [|cbn; by rewrite ?E].
      cbn [response_text fetch_failed andb]. unfold ret at 1.
      unfold call_extract_text_content, raise, ret.
      destruct (parser_rejects html) as [msg|]; cbn; [done|].
      by rewrite app_nil_r.
    + destruct text as [html|msg]; cbn; rewrite ?E; by rewrite ?app_nil_r.
Qed.

Lemma in_sources_true source_name url :
  assoc source_name DOC_SOURCES = Some url -> in_sources source_name = true.
Proof. unfold in_sources. by intros ->. Qed.

Lemma in_sources_false source_name :
  assoc source_name DOC_SOURCES = None -> in_sources source_name = false.
Proof. unfold in_sources. by intros ->. Qed.

(** X6: a fetch never touches the cache, whatever it returns; it leaves a
    session in place exactly when the source is registered or a session
    was there before, so that an unregistered name creates none and an
    existing session is never dropped. *)
Theorem fetch_documentation_globals (source_name : string) (st : state) :
  let st' :=
    snd (fetch_documentation html_parser parser_rejects network source_name st) in
  doc_cache st' = doc_cache st
  /\ session st' = session st || in_sources source_name.
Proof.
  intros st'. subst st'.
  destruct (assoc source_name DOC_SOURCES) as [url|] eqn:H.
  - rewrite (fetch_documentation_state _ _ _ H), (in_sources_true _ _ H).
    by rewrite orb_true_r.
  - rewrite (fetch_documentation_unknown _ _ _ _ _ H), (in_sources_false _ H).
    by rewrite orb_false_r.
Qed.

(** X7: a fetch writes to the log exactly when the request of a
    registered source takes the exception handler: it gets no response, or
    a 200 whose body cannot be read, or a 200 whose body the parser
    rejects.  It then appends one ERROR record, which is the text that it
    returns.  An unknown source, a status other than 200 and a page that is
    parsed are not logged. *)
Theorem fetch_documentation_log (source_name : string) (st : state) :
  let run :=
    fetch_documentation html_parser parser_rejects network source_name st in
  let answer := network (length (requests st)) (url_of source_name) in
  exists text,
    fst run = Return text
    /\ log (snd run) =
       log st ++
       (if in_sources source_name && fetch_failed parser_rejects answer
        then [(ERROR, text)] else []).
Proof.
  intros run answer. subst run answer.
  destruct (assoc source_name DOC_SOURCES) as [url|] eqn:H.
  - rewrite (fetch_documentation_state _ _ _ H), (in_sources_true _ _ H).
    rewrite (url_of_assoc _ _ H). eexists. split; [done|]. done.
  - rewrite (fetch_documentation_unknown _ _ _ _ _ H), (in_sources_false _ H).
    eexists. split; [done|]. by rewrite app_nil_r.
Qed.

End FetcherFacts.

(** ** The orchestrator *)

Lemma assoc_In k v d : assoc k d = Some v -> In k (map fst d) /\ In v (map snd d).
Proof.
  induction d as [|[k' v'] d IH]; [done|]. simpl.
  destruct (String.eqb k k') eqn:E.
  - apply String.eqb_eq in E as ->. intros [= ->]. auto.
  - intros H. destruct (IH H). auto.
Qed.

Lemma in_sources_keys source_name :
  in_sources source_name = true -> In source_name sources_keys.
Proof.
  unfold in_sources. destruct (assoc source_name DOC_SOURCES) eqn:E; [|done].
  intros _. by apply assoc_In in E as [? _].
Qed.

Lemma url_of_registered source_name :
  in_sources source_name = true -> In (url_of source_name) (map snd DOC_SOURCES).
Proof.
  unfold in_sources, url_of.
  destruct (assoc source_name DOC_SOURCES) eqn:E; [|done].
  intros _. by apply assoc_In in E as [_ ?].
Qed.

(** What a query fetches: registered sources, missing from the cache, each
    of them once. *)
Lemma misses_spec sources : forall cached,
  Forall (fun s => in_sources s = true /\ s ∉ cached) (misses sources cached)
  /\ NoDup (misses sources cached).
Proof.
  induction sources as [|s l IH]; intros cached; [split; constructor|].
  cbn [misses].
  destruct (in_sources s) eqn:Hs; cbn [andb]; [|apply IH].
  destruct (bool_decide (s ∉ cached)) eqn:Hc; [|apply IH].
  apply bool_decide_eq_true in Hc.
  destruct (IH ({[s]} ∪ cached)) as [Hall Hnd].
  split.
  - constructor; [done|].
    eapply Forall_impl; [exact Hall|]. simpl. intros x [? ?]. split; [done|].
    set_solver.
  - constructor; [|done]. intros Hin.
    rewrite Forall_forall in Hall. destruct (Hall s Hin) as [_ Hn]. set_solver.
Qed.

Lemma sources_keys_NoDup : NoDup sources_keys.
Proof. apply (bool_decide_unpack _). by vm_compute. Qed.

Lemma misses_length sources cached : length (misses sources cached) <= 3.
Proof.
  destruct (misses_spec sources cached) as [Hall Hnd].
  change 3 with (length sources_keys).
  apply NoDup_incl_length; [by apply NoDup_ListNoDup|].
  intros s Hs. rewrite Forall_forall in Hall.
  apply list_elem_of_In, Hall in Hs as [Hs _]. by apply in_sources_keys.
Qed.

Lemma misses_nil sources cached :
  Forall (fun s => in_sources s = true -> s ∈ cached) sources ->
  misses sources cached = [].
Proof.
  induction 1 as [|s l Hs _ IH]; [done|]. cbn [misses].
  destruct (in_sources s); cbn [andb]; [|done].
  by rewrite bool_decide_eq_false_2 by (intros Hn; by apply Hn, Hs).
Qed.

(** X8: a query never raises, and it issues at most three requests,
    however long its list of sources: the addresses requested are
    addresses of the registry, added behind the requests made before. *)
Theorem crc_doc_query_requests (html_parser : string -> list node)
    (parser_rejects : string -> option string)
    (network : nat -> string -> reply) (query : string)
    (sources : option (list string)) (st : state) :
  exists text st' urls,
    crc_doc_query html_parser parser_rejects network query sources st = (Return text, st')
    /\ requests st' = requests st ++ urls
    /\ length urls <= 3
    /\ Forall (fun u => In u (map snd DOC_SOURCES)) urls.
Proof.
  destruct (Str.is_empty query) eqn:Hq.
  - apply is_empty_true in Hq as ->. exists "Please provide a query.", st, [].
    split_and!; [done|by rewrite app_nil_r|simpl; lia|constructor].
  - destruct (crc_doc_query_run html_parser parser_rejects network query sources st Hq)
      as (st' & Hrun & _ & _ & Hreq & _).
    eexists _, st', _. split_and!; [exact Hrun|exact Hreq| |].
    + rewrite length_map. apply misses_length.
    + apply Forall_forall. intros u Hu.
      apply list_elem_of_In, in_map_iff in Hu as (s & <- & Hs).
      destruct (misses_spec (targets_of sources) (dom (doc_cache st)))
        as [Hall _].
      rewrite Forall_forall in Hall.
      apply list_elem_of_In, Hall in Hs as [Hs _]. by apply url_of_registered.
Qed.

Lemma cache_registered_size st :
  cache_registered st -> size (doc_cache st) <= 3.
Proof.
  intros H. rewrite <- size_dom.
  change 3 with (length sources_keys).
  rewrite <- (size_list_to_set (C := gset string)) by apply sources_keys_NoDup.
  apply subseteq_size. intros s Hs. apply elem_of_dom in Hs.
  apply elem_of_list_to_set, list_elem_of_In, in_sources_keys. auto.
Qed.

(** X9: when every key of the cache is a registered source, this is
    still so after any query and after a clearing of the cache; the cache
    then never holds more than three entries. *)
Theorem cache_registered_invariant (html_parser : string -> list node)
    (parser_rejects : string -> option string)
    (network : nat -> string -> reply) (query : string)
    (sources : option (list string)) (st : state) :
  cache_registered st ->
  let st' := snd (crc_doc_query html_parser parser_rejects network query sources st) in
  cache_registered st'
  /\ size (doc_cache st') <= 3
  /\ cache_registered (snd (clear_cache st)).
Proof.
  intros Hreg st'.
  assert (cache_registered st') as Hreg'.
  { subst st'. destruct (Str.is_empty query) eqn:Hq.
    - apply is_empty_true in Hq as ->. done.
    - destruct (crc_doc_query_run html_parser parser_rejects network query sources st Hq)
        as (st1 & -> & _ & Hdom & _).
      cbn [snd]. intros s Hs. apply elem_of_dom in Hs. rewrite Hdom in Hs.
      apply elem_of_union in Hs as [Hs|Hs].
      + apply elem_of_list_to_set, list_elem_of_filter in Hs as [Hs _].
        by apply Is_true_true.
      + by apply Hreg, elem_of_dom. }
  split_and!; [done|by apply cache_registered_size|].
  intros s [v Hs]. cbn in Hs. by rewrite lookup_empty in Hs.
Qed.

Lemma cache_registered_invariant_witness :
  cache_registered fresh /\
  let st' := snd (crc_doc_query plain_parser accepts_all flaky_network "vm"
                    (Some ["crc"; "elsewhere"]) fresh) in
  cache_registered st'
  /\ size (doc_cache st') <= 3
  /\ cache_registered (snd (clear_cache fresh)).
Proof.
  assert (cache_registered fresh) as H.
  { intros s [v Hs]. cbn in Hs. by rewrite lookup_empty in Hs. }
  split; [exact H|].
  exact (cache_registered_invariant plain_parser accepts_all flaky_network "vm"
           (Some ["crc"; "elsewhere"]) fresh H).
Defined.

(** X11: on an empty cache a query without a list of sources fetches the
    three sources of the registry, in the order of the registry, and leaves
    each of them, and nothing else, in the cache. *)
Theorem crc_doc_query_cold (html_parser : string -> list node)
    (parser_rejects : string -> option string)
    (network : nat -> string -> reply) (query : string) (st : state) :
  Str.is_empty query = false ->
  doc_cache st = ∅ ->
  let st' := snd (crc_doc_query html_parser parser_rejects network query None st) in
  requests st' =
    requests st ++
    ["https://crc.dev/docs"; "https://crc.dev/blog";
     "https://crc.dev/engineering-docs"]
  /\ forall source_name,
       is_Some (doc_cache st' !! source_name) <-> in_sources source_name = true.
Proof.
  intros Hq Hc st'. subst st'.
  destruct (crc_doc_query_run html_parser parser_rejects network query None st Hq)
    as (st' & -> & _ & Hdom & Hreq & _).
  cbn [snd]. rewrite Hc, dom_empty_L in *. split.
  - rewrite Hreq. f_equal.
  - intros s. rewrite <- elem_of_dom, Hdom, union_empty_r_L.
    rewrite elem_of_list_to_set, list_elem_of_filter. split.
    + intros [Hs _]. by apply Is_true_true.
    + intros Hs. split; [by apply Is_true_true|].
      by apply list_elem_of_In, in_sources_keys.
Qed.

Lemma crc_doc_query_cold_witness :
  Str.is_empty "vm" = false /\
  doc_cache fresh = ∅ /\
  let st' := snd (crc_doc_query plain_parser accepts_all flaky_network "vm" None fresh) in
  requests st' =
    requests fresh ++
    ["https://crc.dev/docs"; "https://crc.dev/blog";
     "https://crc.dev/engineering-docs"]
  /\ forall source_name,
       is_Some (doc_cache st' !! source_name) <-> in_sources source_name = true.
Proof.
  split; [reflexivity|]. split; [reflexivity|].
  apply (crc_doc_query_cold plain_parser accepts_all flaky_network "vm" fresh);
    reflexivity.
Defined.

(** X13: when every registered source of its list is cached, a query is
    answered from the cache alone: the state does not change and the answer
    is the same with any other parser and network. *)
Theorem crc_doc_query_cached (html_parser1 html_parser2 : string -> list node)
    (parser_rejects1 parser_rejects2 : string -> option string)
    (network1 network2 : nat -> string -> reply) (query : string)
    (sources : option (list string)) (st : state) :
  Forall (fun s => in_sources s = true -> is_Some (doc_cache st !! s))
         (targets_of sources) ->
  snd (crc_doc_query html_parser1 parser_rejects1 network1 query sources st) = st
  /\ crc_doc_query html_parser1 parser_rejects1 network1 query sources st =
     crc_doc_query html_parser2 parser_rejects2 network2 query sources st.
Proof.
  intros Hall.
  assert (misses (targets_of sources) (dom (doc_cache st)) = []) as Hm.
  { apply misses_nil. eapply Forall_impl; [exact Hall|].
    simpl. intros s Hs Hin. by apply elem_of_dom, Hs. }
  destruct (Str.is_empty query) eqn:Hq.
  - apply is_empty_true in Hq as ->. done.
  - destruct (crc_doc_query_run html_parser1 parser_rejects1 network1 query sources st Hq)
      as (st1 & Hrun1 & _ & _ & _ & Hid1).
    destruct (crc_doc_query_run html_parser2 parser_rejects2 network2 query sources st Hq)
      as (st2 & Hrun2 & _ & _ & _ & Hid2).
    rewrite Hrun1, Hrun2, (Hid1 Hm), (Hid2 Hm). done.
Qed.

Lemma crc_doc_query_cached_witness :
  Forall (fun s => in_sources s = true -> is_Some (doc_cache warm !! s))
         (targets_of (Some ["crc"; "elsewhere"])) /\
  (snd (crc_doc_query plain_parser accepts_all flaky_network "machine"
          (Some ["crc"; "elsewhere"]) warm) = warm
   /\ crc_doc_query plain_parser accepts_all flaky_network "machine"
        (Some ["crc"; "elsewhere"]) warm =
      crc_doc_query (fun _ => []) strict_parser
        (fun _ _ => NoResponse "down") "machine"
        (Some ["crc"; "elsewhere"]) warm).
Proof.
  assert (Forall (fun s => in_sources s = true -> is_Some (doc_cache warm !! s))
                 (targets_of (Some ["crc"; "elsewhere"]))) as H.
  { repeat constructor.
    - intros _. eexists. vm_compute. reflexivity.
    - intros Hs. vm_compute in Hs. discriminate Hs. }
  split; [exact H|].
  exact (crc_doc_query_cached plain_parser (fun _ => [])
           accepts_all strict_parser flaky_network
           (fun _ _ => NoResponse "down") "machine"
           (Some ["crc"; "elsewhere"]) warm H).
Defined.

(** ** The report *)

Lemma str_app_assoc a b c : (a +:+ b) +:+ c = a +:+ (b +:+ c).
Proof.
  induction a as [|x a IH]; [done|].
  change (String x ((a +:+ b) +:+ c) = String x (a +:+ (b +:+ c))).
  by rewrite IH.
Qed.

Lemma str_app_nil_r a : a +:+ "" = a.
Proof.
  induction a as [|x a IH]; [done|].
  change (String x (a +:+ "") = String x a). by rewrite IH.
Qed.

Lemma concat_empty_cons x l :
  String.concat "" (x :: l) = x +:+ String.concat "" l.
Proof. destruct l; [by rewrite str_app_nil_r|done]. Qed.

Lemma format_sections_numbered sections : forall i response,
  format_sections i sections response = response +:+ numbered i sections.
Proof.
  induction sections as [|section rest IH]; intros i response.
  - by rewrite str_app_nil_r.
  - cbn [format_sections numbered]. rewrite IH. by rewrite !str_app_assoc.
Qed.

Lemma format_result_block response r :
  format_result response r = response +:+ render_block r.
Proof.
  unfold format_result, render_block.
  rewrite format_sections_numbered. by rewrite !str_app_assoc.
Qed.

Lemma fold_format_result results : forall response,
  fold_left format_result results response =
  response +:+ String.concat "" (map render_block results).
Proof.
  induction results as [|r rs IH]; intros response.
  - by rewrite str_app_nil_r.
  - cbn [fold_left map]. rewrite IH, format_result_block, concat_empty_cons.
    by rewrite str_app_assoc.
Qed.

(** X10: a report with results is the heading with the query as given,
    followed by one block per result in the order of the results; a block
    is the title made from the source name, the address, the fragments
    numbered from 1 in their order, and a rule.  Nothing else is added. *)
Theorem format_response_layout (query : string) (r : result)
    (rs : list result) :
  format_response query (r :: rs) =
  report_header query +:+ String.concat "" (map render_block (r :: rs)).
Proof.
  unfold format_response, report_header.
  rewrite fold_format_result. by rewrite !str_app_assoc.
Qed.

(** ** Error texts in the cache *)

Lemma split_on_app_sep sep a b :
  forallb (fun c => negb (Ascii.eqb c sep)) (chars a) = true ->
  Str.split_on sep (a +:+ String sep b) = a :: Str.split_on sep b.
Proof.
  induction a as [|c a IH]; intros Ha.
  - pose proof (split_on_nonempty sep b) as Hne.
    change ("" +:+ String sep b) with (String sep b). cbn [Str.split_on].
    destruct (Str.split_on sep b); [done|]. by rewrite Ascii.eqb_refl.
  - cbn in Ha. apply andb_true_iff in Ha as [Hc Ha].
    apply negb_true_iff in Hc.
    change (String c a +:+ String sep b) with (String c (a +:+ String sep b)).
    cbn [Str.split_on]. by rewrite (IH Ha), Hc.
Qed.

Lemma score_term terms term sentence :
  In term terms -> Str.count (Str.lower sentence) term <= score terms sentence.
Proof.
  unfold score. induction terms as [|t terms IH]; [done|].
  simpl. intros [->|H]; [lia|]. specialize (IH H). lia.
Qed.

(** A candidate with a positive score makes the ranker return something. *)
Lemma find_relevant_sections_some content query t :
  In t (candidates content) -> 0 < query_score query t ->
  find_relevant_sections content query <> [].
Proof.
  intros Ht Hs Hnil.
  assert (length (find_relevant_sections content query) = 0) as Hlen
    by (by rewrite Hnil).
  rewrite find_relevant_sections_sorted in Hlen.
  rewrite length_map, length_take, sort_desc_length, length_map in Hlen.
  assert (In t (qualifying content query)) as Hq.
  { unfold qualifying. apply list_elem_of_In, list_elem_of_filter.
    split; [by apply Is_true_true, Nat.ltb_lt|by apply list_elem_of_In]. }
  destruct (qualifying content query); [done|]. simpl in Hlen. lia.
Qed.

Lemma find_relevant_sections_head content query a b :
  content = a +:+ String "." b ->
  forallb (fun c => negb (Ascii.eqb c ".")) (chars a) = true ->
  long_enough a = true ->
  In "crc" (Str.split (Str.lower query)) ->
  0 < Str.count (Str.lower (Str.strip a)) "crc" ->
  find_relevant_sections content query <> [].
Proof.
  intros -> Ha Hl Hq Hc.
  apply (find_relevant_sections_some _ _ (Str.strip a)).
  - unfold candidates. rewrite (split_on_app_sep _ _ _ Ha).
    rewrite filter_bool_cons, Hl. by left.
  - unfold query_score. pose proof (score_term _ _ (Str.strip a) Hq). lia.
Qed.

Lemma registered_urls source_name url :
  assoc source_name DOC_SOURCES = Some url ->
  url = "https://crc.dev/docs" \/ url = "https://crc.dev/blog"
  \/ url = "https://crc.dev/engineering-docs".
Proof.
  intros H. apply assoc_In in H as [_ H]. simpl in H. naive_solver.
Qed.

(** The text of a failed fetch is found by a query with the word crc. *)
Lemma fetched_text_found html_parser parser_rejects source_name url answer query :
  assoc source_name DOC_SOURCES = Some url ->
  is_page answer = false ->
  In "crc" (Str.split (Str.lower query)) ->
  find_relevant_sections (fetched_text html_parser parser_rejects url answer) query <> [].
Proof.
  intros Hs Hp Hq.
  assert (forall msg,
    find_relevant_sections ("Error fetching " +:+ url +:+ ": " +:+ msg) query
    <> []) as Herror.
  { intros msg.
    destruct (registered_urls _ _ Hs) as [->|[->| ->]].
    - apply (find_relevant_sections_head _ _ "Error fetching https://crc"
                  ("dev/docs: " +:+ msg));
        [reflexivity|reflexivity|reflexivity|exact Hq|vm_compute; lia].
    - apply (find_relevant_sections_head _ _ "Error fetching https://crc"
                  ("dev/blog: " +:+ msg));
        [reflexivity|reflexivity|reflexivity|exact Hq|vm_compute; lia].
    - apply (find_relevant_sections_head _ _ "Error fetching https://crc"
                  ("dev/engineering-docs: " +:+ msg));
        [reflexivity|reflexivity|reflexivity|exact Hq|vm_compute; lia]. }
  assert (forall status,
    find_relevant_sections
      ("Failed to fetch " +:+ url +:+ " (Status: " +:+ Str.of_Z status +:+ ")")
      query <> []) as Hfailed.
  { intros status.
    destruct (registered_urls _ _ Hs) as [->|[->| ->]].
    - apply (find_relevant_sections_head _ _ "Failed to fetch https://crc"
                  ("dev/docs (Status: " +:+ Str.of_Z status +:+ ")"));
        [reflexivity|reflexivity|reflexivity|exact Hq|vm_compute; lia].
    - apply (find_relevant_sections_head _ _ "Failed to fetch https://crc"
                  ("dev/blog (Status: " +:+ Str.of_Z status +:+ ")"));
        [reflexivity|reflexivity|reflexivity|exact Hq|vm_compute; lia].
    - apply (find_relevant_sections_head _ _ "Failed to fetch https://crc"
                  ("dev/engineering-docs (Status: " +:+ Str.of_Z status +:+ ")"));
        [reflexivity|reflexivity|reflexivity|exact Hq|vm_compute; lia]. }
  unfold fetched_text. destruct answer as [msg|status [html|msg]]; [done| |].
  - simpl in Hp. by rewrite Hp.
  - by destruct (status =? 200)%Z.
Qed.

(** X12: an error text is cached and searched like a page.  When the
    fetch of a registered source that is not cached fails, by a transport
    failure or by a status other than 200, a query with the word crc does
    not answer that nothing was found: it reports fragments of the error
    text as results of that source, and the error text stays in the
    cache. *)
Theorem crc_doc_query_serves_errors (html_parser : string -> list node)
    (parser_rejects : string -> option string)
    (network : nat -> string -> reply) (query source_name url : string)
    (st : state) :
  assoc source_name DOC_SOURCES = Some url ->
  doc_cache st !! source_name = None ->
  is_page (network (length (requests st)) url) = false ->
  In "crc" (Str.split (Str.lower query)) ->
  let text := fetched_text html_parser parser_rejects url (network (length (requests st)) url) in
  let run := crc_doc_query html_parser parser_rejects network query (Some [source_name]) st in
  ((exists msg, text = "Error fetching " +:+ url +:+ ": " +:+ msg)
   \/ (exists status,
         text = "Failed to fetch " +:+ url +:+ " (Status: "
                +:+ Str.of_Z status +:+ ")"))
  /\ doc_cache (snd run) !! source_name = Some text
  /\ find_relevant_sections text query <> []
  /\ fst run =
     Return (format_response query
               [ {| source := source_name; url := url;
                    sections := find_relevant_sections text query |} ]).
Proof.
  intros Hs Hc Hp Hq text run.
  assert (Str.is_empty query = false) as Hne by (by destruct query).
  pose proof (fetched_text_found html_parser parser_rejects _ _ _ _ Hs Hp Hq)
    as Hfound.
  fold text in Hfound.
  destruct (crc_doc_query_single html_parser parser_rejects network query source_name url st
              Hs Hne) as (st' & Hrun & Hd & _).
  unfold stored_text in Hrun, Hd. rewrite Hc in Hrun, Hd. fold text in Hrun, Hd.
  subst run. rewrite Hrun. cbn [fst snd].
  split_and!; [|rewrite Hd; apply lookup_insert_eq|done|].
  - subst text. unfold fetched_text.
    destruct (network (length (requests st)) url) as [msg|status [html|msg]].
    + left. eauto.
    + simpl in Hp. rewrite Hp. right. eauto.
    + destruct (status =? 200)%Z; [left|right]; eauto.
  - unfold entry. by destruct (find_relevant_sections text query).
Qed.

Lemma crc_doc_query_serves_errors_witness :
  assoc "crc-blog" DOC_SOURCES = Some "https://crc.dev/blog" /\
  doc_cache fresh !! "crc-blog" = None /\
  is_page (flaky_network (length (requests fresh)) "https://crc.dev/blog") = false /\
  In "crc" (Str.split (Str.lower "Start CRC")) /\
  let text :=
    fetched_text plain_parser accepts_all "https://crc.dev/blog"
      (flaky_network (length (requests fresh)) "https://crc.dev/blog") in
  let run :=
    crc_doc_query plain_parser accepts_all flaky_network "Start CRC" (Some ["crc-blog"]) fresh in
  ((exists msg, text = "Error fetching " +:+ "https://crc.dev/blog" +:+ ": " +:+ msg)
   \/ (exists status,
         text = "Failed to fetch " +:+ "https://crc.dev/blog" +:+ " (Status: "
                +:+ Str.of_Z status +:+ ")"))
  /\ doc_cache (snd run) !! "crc-blog" = Some text
  /\ find_relevant_sections text "Start CRC" <> []
  /\ fst run =
     Return (format_response "Start CRC"
               [ {| source := "crc-blog"; url := "https://crc.dev/blog";
                    sections := find_relevant_sections text "Start CRC" |} ]).
Proof.
  split; [reflexivity|]. split; [reflexivity|]. split; [reflexivity|].
  split; [vm_compute; auto|].
  apply (crc_doc_query_serves_errors plain_parser accepts_all flaky_network "Start CRC"
           "crc-blog" "https://crc.dev/blog" fresh);
    [reflexivity|reflexivity|reflexivity|vm_compute; auto].
Defined.
